(** * geminiService.ts: the response validator and the three API wrappers

    A shallow embedding of [src/geminiService.ts].  JavaScript strings are
    sequences of UTF-16 code units, modelled as [list N]; the built-ins the
    module relies on ([String.prototype.replace] with the global fence
    pattern, [String.prototype.trim], [JSON.parse], truthiness, property
    access) are modelled after ECMA-262; the module's own functions
    ([parseJsonResponse], [generateInitialScene], [generateNextScene],
    [generateImage]) are translated line by line. *)

From Stdlib Require Import List NArith ZArith Bool Ascii String Lia Arith.
From Stdlib Require Import DecimalString.
From Stdlib Require DecimalNat DecimalFacts.
Import ListNotations.

Local Open Scope N_scope.
Local Open Scope list_scope.

(** * Part I: the model *)

(** ** JavaScript strings *)

Module JSString.

(** A string value: its UTF-16 code units, in order. *)
Definition jsstring := list N.

(** The code units of an ASCII literal. *)
Definition codes (s : string) : jsstring :=
  map N_of_ascii (list_ascii_of_string s).

Definition eqb (a b : jsstring) : bool :=
  if list_eq_dec N.eq_dec a b then true else false.

(** [starts_with p s]: [p] is a prefix of [s]. *)
Fixpoint starts_with (p s : jsstring) : bool :=
  match p, s with
  | [], _ => true
  | _ :: _, [] => false
  | a :: p', b :: s' => (a =? b) && starts_with p' s'
  end.

(** [s.includes(p)]: [p] occurs somewhere in [s]. *)
Fixpoint includes (p s : jsstring) : bool :=
  starts_with p s ||
  match s with
  | [] => false
  | _ :: s' => includes p s'
  end.

(** WhiteSpace and LineTerminator code units (ECMA-262, 12.2 and 12.3):
    what [trim] removes. *)
Definition isWhiteSpace (c : N) : bool :=
  ((9 <=? c) && (c <=? 13))            (* TAB, LF, VT, FF, CR *)
  || (c =? 32)                         (* SPACE *)
  || (c =? 160)                        (* NO-BREAK SPACE *)
  || (c =? 5760)                       (* U+1680 *)
  || ((8192 <=? c) && (c <=? 8202))    (* U+2000 .. U+200A *)
  || (c =? 8232) || (c =? 8233)        (* LINE / PARAGRAPH SEPARATOR *)
  || (c =? 8239) || (c =? 8287)        (* U+202F, U+205F *)
  || (c =? 12288)                      (* U+3000 *)
  || (c =? 65279).                     (* U+FEFF *)

Fixpoint trimStart (s : jsstring) : jsstring :=
  match s with
  | [] => []
  | c :: r => if isWhiteSpace c then trimStart r else s
  end.

Definition trimEnd (s : jsstring) : jsstring :=
  rev (trimStart (rev s)).

(** [String.prototype.trim]. *)
Definition trim (s : jsstring) : jsstring := trimEnd (trimStart s).

(** A text that does not start with white space is left alone by
    [trimStart]. *)
Definition starts_clean (s : jsstring) : Prop :=
  match s with
  | [] => True
  | c :: _ => isWhiteSpace c = false
  end.

Abbreviation len := (@List.length N).

End JSString.
Export JSString.

(** ** Fence stripping: [text.replace(/```json|```/g, '')] *)

Definition backtick : N := 96.

(** The two alternatives of the pattern, in the order the pattern lists
    them. *)
Definition fence : jsstring := [backtick; backtick; backtick].
Definition json_word : jsstring := codes "json".
Definition fence_json : jsstring := fence ++ json_word.

(** A global replace scans left to right; at each position the first
    alternative that matches is taken, the match is replaced (here by the
    empty string) and scanning resumes right after it; a code unit where
    nothing matches is copied. *)
Fixpoint replace_fences (s : jsstring) : jsstring :=
  match s with
  | [] => []
  | c1 :: t1 =>
      match t1 with
      | c2 :: c3 :: t3 =>
          if starts_with fence s then
            match t3 with
            | _ :: _ :: _ :: _ :: t7 =>
                if starts_with json_word t3
                then replace_fences t7            (* matched ```json *)
                else replace_fences t3            (* matched ``` *)
            | _ => replace_fences t3              (* matched ``` *)
            end
          else c1 :: replace_fences t1
      | _ => c1 :: replace_fences t1
      end
  end.

(** Line 37: [response.text.replace(/```json|```/g, '').trim()]. *)
Definition normalize (text : jsstring) : jsstring :=
  trim (replace_fences text).

(** A text is fence-free when the pattern matches nowhere in it, that is
    when it has no three consecutive backticks. *)
Definition fence_free (s : jsstring) : Prop := includes fence s = false.

Definition two_ticks : jsstring := [backtick; backtick].

(** Every text is in exactly one of the four situations of the scan. *)
Inductive scan_case (s : jsstring) : Prop :=
| scan_end : s = [] -> scan_case s
| scan_json r :
    s = fence_json ++ r ->
    replace_fences s = replace_fences r -> scan_case s
| scan_fence r :
    s = fence ++ r -> starts_with json_word r = false ->
    replace_fences s = replace_fences r -> scan_case s
| scan_copy c r :
    s = c :: r -> starts_with fence s = false ->
    replace_fences s = c :: replace_fences r -> scan_case s.

(** ** Completions and values *)

(** What a JavaScript [throw] carries in this module: the [SyntaxError] of
    [JSON.parse], the [TypeError] of a property read on [undefined] or
    [null], the [Error] objects the module creates itself (with their
    message), and the rejection reason of a failed call to the service. *)
Inductive JSError : Type :=
| SyntaxError
| TypeError
| Error (message : jsstring)
| ApiError (reason : jsstring).

(** The outcome of evaluating an expression or a function body. *)
Inductive completion (A : Type) : Type :=
| Normal (a : A)
| Throw (e : JSError).
Arguments Normal {A} a.
Arguments Throw {A} e.

Definition bind {A B : Type} (c : completion A) (k : A -> completion B)
  : completion B :=
  match c with
  | Normal a => k a
  | Throw e => Throw e
  end.

(** [try { body } catch (error) { handler }]. *)
Definition try_catch {A : Type} (body : completion A)
  (handler : JSError -> completion A) : completion A :=
  match body with
  | Normal a => Normal a
  | Throw e => handler e
  end.

Declare Scope js_scope.
Delimit Scope js_scope with js.
Notation "x <- c ;; k" := (bind c (fun x => k))
  (at level 61, c at next level, right associativity) : js_scope.

(** The values [JSON.parse] can produce.  A number is kept as the exact
    value of its literal, [mantissa * 10 ^ exponent]; an object as its
    own properties, keyed by name. *)
#[local] Set Warnings "-register-all".
Inductive JSValue : Type :=
| JNull
| JBool (b : bool)
| JNumber (mantissa exponent : Z)
| JString (s : jsstring)
| JArray (items : list JSValue)
| JObject (props : list (jsstring * JSValue)).

(** [CreateDataProperty]: a repeated name overwrites the earlier value and
    keeps its place. *)
Fixpoint define_property (props : list (jsstring * JSValue))
  (k : jsstring) (v : JSValue) : list (jsstring * JSValue) :=
  match props with
  | [] => [(k, v)]
  | (k', v') :: rest =>
      if JSString.eqb k' k then (k', v) :: rest
      else (k', v') :: define_property rest k v
  end.

Fixpoint lookup (props : list (jsstring * JSValue)) (k : jsstring)
  : option JSValue :=
  match props with
  | [] => None
  | (k', v) :: rest => if JSString.eqb k' k then Some v else lookup rest k
  end.

(** The value of [v.k] for a non-null [v] and a name [k] that no built-in
    prototype defines and that is neither [length] nor an index (the three
    names the validator reads are such): the own property of an object,
    [undefined] ([None]) for every other value. *)
Definition field (v : JSValue) (k : jsstring) : option JSValue :=
  match v with
  | JObject props => lookup props k
  | _ => None
  end.

(** The expression [v.k]: a read on [null] throws. *)
Definition get (v : JSValue) (k : jsstring) : completion (option JSValue) :=
  match v with
  | JNull => Throw TypeError
  | _ => Normal (field v k)
  end.

(** A number literal denotes a non-zero double exactly when its value
    exceeds, in magnitude, half the least subnormal [2 ^ -1074]: at or
    below it, rounding to nearest (ties to even) gives zero. *)
Definition number_nonzero (mantissa exponent : Z) : bool :=
  (if mantissa =? 0 then false
   else if 0 <=? exponent then true
   else 10 ^ (- exponent) <? Z.abs mantissa * 2 ^ 1075)%Z.

(** [ToBoolean]. *)
Definition truthy (v : JSValue) : bool :=
  match v with
  | JNull => false
  | JBool b => b
  | JNumber m e => number_nonzero m e
  | JString s => negb (JSString.eqb s [])
  | JArray _ => true
  | JObject _ => true
  end.

(** [ToBoolean] of a property read: [undefined] is falsy. *)
Definition truthy_opt (v : option JSValue) : bool :=
  match v with
  | None => false
  | Some v => truthy v
  end.

(** [Array.isArray]. *)
Definition isArray (v : option JSValue) : bool :=
  match v with
  | Some (JArray _) => true
  | _ => false
  end.

(** ** [JSON.parse] (ECMA-262, 25.5.1; grammar of ECMA-404) *)

Module JSON.

(** Result of a sub-parser: the value and the unread rest of the text, a
    syntax error, or an exhausted recursion budget. *)
Inductive result (A : Type) : Type :=
| Parsed (a : A) (rest : jsstring)
| Malformed
| OutOfFuel.
Arguments Parsed {A} a rest.
Arguments Malformed {A}.
Arguments OutOfFuel {A}.

(** JSON white space: TAB, LF, CR, SPACE. *)
Definition is_ws (c : N) : bool :=
  (c =? 9) || (c =? 10) || (c =? 13) || (c =? 32).

Fixpoint skip_ws (s : jsstring) : jsstring :=
  match s with
  | [] => []
  | c :: r => if is_ws c then skip_ws r else s
  end.

Definition is_digit (c : N) : bool := (48 <=? c) && (c <=? 57).

Definition hex_digit (c : N) : option N :=
  if is_digit c then Some (c - 48)
  else if (97 <=? c) && (c <=? 102) then Some (c - 87)
  else if (65 <=? c) && (c <=? 70) then Some (c - 55)
  else None.

Definition hex4 (a b c d : N) : option N :=
  match hex_digit a, hex_digit b, hex_digit c, hex_digit d with
  | Some x, Some y, Some z, Some w => Some (((x * 16 + y) * 16 + z) * 16 + w)
  | _, _, _, _ => None
  end.

(** The single-character escapes and the code unit each stands for. *)
Definition simple_escape (c : N) : option N :=
  if c =? 34 then Some 34          (* quotation mark *)
  else if c =? 92 then Some 92     (* reverse solidus *)
  else if c =? 47 then Some 47     (* solidus *)
  else if c =? 98 then Some 8      (* b: backspace *)
  else if c =? 102 then Some 12    (* f: form feed *)
  else if c =? 110 then Some 10    (* n: line feed *)
  else if c =? 114 then Some 13    (* r: carriage return *)
  else if c =? 116 then Some 9     (* t: tab *)
  else None.

(** The characters of a string after its opening quote, up to and
    including the closing quote; [acc] holds what was read, reversed. *)
Fixpoint string_body (s : jsstring) (acc : jsstring) : result jsstring :=
  match s with
  | [] => Malformed
  | c :: r =>
      if c =? 34 then Parsed (rev acc) r
      else if c =? 92 then
        match r with
        | [] => Malformed
        | e :: r1 =>
            if e =? 117 then                       (* u and four hex digits *)
              match r1 with
              | h1 :: h2 :: h3 :: h4 :: r5 =>
                  match hex4 h1 h2 h3 h4 with
                  | Some u => string_body r5 (u :: acc)
                  | None => Malformed
                  end
              | _ => Malformed
              end
            else
              match simple_escape e with
              | Some x => string_body r1 (x :: acc)
              | None => Malformed
              end
        end
      else if c <? 32 then Malformed
      else string_body r (c :: acc)
  end.

(** The longest run of decimal digits at the head of the text, as digit
    values, and the rest. *)
Fixpoint span_digits (s : jsstring) : list N * jsstring :=
  match s with
  | [] => ([], [])
  | c :: r =>
      if is_digit c
      then let (ds, rest) := span_digits r in (c - 48 :: ds, rest)
      else ([], s)
  end.

Definition digits_value (ds : list N) : Z :=
  fold_left (fun acc d => (acc * 10 + Z.of_N d)%Z) ds 0%Z.

(** The integer part: a single [0], or a non-zero digit and more
    digits. *)
Definition int_part (s : jsstring) : result (list N) :=
  match s with
  | [] => Malformed
  | c :: r =>
      if c =? 48 then Parsed [0] r
      else if is_digit c
           then let (ds, rest) := span_digits r in Parsed (c - 48 :: ds) rest
           else Malformed
  end.

(** The optional fraction: a point and at least one digit. *)
Definition frac_part (s : jsstring) : result (list N) :=
  match s with
  | c :: r =>
      if c =? 46 then
        match span_digits r with
        | ([], _) => Malformed
        | (ds, rest) => Parsed ds rest
        end
      else Parsed [] s
  | [] => Parsed [] s
  end.

(** The optional exponent: [e] or [E], an optional sign and at least one
    digit. *)
Definition exp_part (s : jsstring) : result Z :=
  match s with
  | c :: r =>
      if (c =? 101) || (c =? 69) then
        let (neg, r1) :=
          match r with
          | sgn :: r' =>
              if sgn =? 45 then (true, r')
              else if sgn =? 43 then (false, r') else (false, r)
          | [] => (false, r)
          end in
        match span_digits r1 with
        | ([], _) => Malformed
        | (ds, rest) =>
            Parsed (if neg then - digits_value ds else digits_value ds)%Z rest
        end
      else Parsed 0%Z s
  | [] => Parsed 0%Z s
  end.

Definition number (s : jsstring) : result JSValue :=
  let (neg, s1) :=
    match s with
    | c :: r => if c =? 45 then (true, r) else (false, s)
    | [] => (false, s)
    end in
  match int_part s1 with
  | Parsed ip s2 =>
      match frac_part s2 with
      | Parsed fp s3 =>
          match exp_part s3 with
          | Parsed ex s4 =>
              let m := digits_value (ip ++ fp) in
              Parsed (JNumber (if neg then - m else m)
                              (ex - Z.of_nat (List.length fp)))%Z s4
          | Malformed => Malformed
          | OutOfFuel => OutOfFuel
          end
      | Malformed => Malformed
      | OutOfFuel => OutOfFuel
      end
  | Malformed => Malformed
  | OutOfFuel => OutOfFuel
  end.

Definition literal (word : string) (v : JSValue) (s : jsstring)
  : result JSValue :=
  if starts_with (codes word) s
  then Parsed v (skipn (String.length word) s)
  else Malformed.

(** One value, after optional white space.  [value], [elements] and
    [members] call each other; [fuel] bounds the depth of these calls. *)
Fixpoint value (fuel : nat) (s : jsstring) {struct fuel} : result JSValue :=
  match fuel with
  | O => OutOfFuel
  | S fuel' =>
      match skip_ws s with
      | [] => Malformed
      | c :: r =>
          if c =? 123 then                                  (* { *)
            match skip_ws r with
            | c' :: r' =>
                if c' =? 125 then Parsed (JObject []) r'    (* } *)
                else members fuel' (c' :: r') []
            | [] => Malformed
            end
          else if c =? 91 then                              (* [ *)
            match skip_ws r with
            | c' :: r' =>
                if c' =? 93 then Parsed (JArray []) r'      (* ] *)
                else elements fuel' (c' :: r') []
            | [] => Malformed
            end
          else if c =? 34 then
            match string_body r [] with
            | Parsed str rest => Parsed (JString str) rest
            | Malformed => Malformed
            | OutOfFuel => OutOfFuel
            end
          else if (c =? 45) || is_digit c then number (c :: r)
          else if c =? 116 then literal "true" (JBool true) (c :: r)
          else if c =? 102 then literal "false" (JBool false) (c :: r)
          else if c =? 110 then literal "null" JNull (c :: r)
          else Malformed
      end
  end

(** The elements of a non-empty array, up to and including the closing
    bracket; [acc] holds the elements read, reversed. *)
with elements (fuel : nat) (s : jsstring) (acc : list JSValue)
       {struct fuel} : result JSValue :=
  match fuel with
  | O => OutOfFuel
  | S fuel' =>
      match value fuel' s with
      | Parsed v rest =>
          match skip_ws rest with
          | c :: r =>
              if c =? 44 then elements fuel' r (v :: acc)            (* , *)
              else if c =? 93 then Parsed (JArray (rev (v :: acc))) r
              else Malformed
          | [] => Malformed
          end
      | Malformed => Malformed
      | OutOfFuel => OutOfFuel
      end
  end

(** The members of a non-empty object, up to and including the closing
    brace; [props] holds the properties defined so far. *)
with members (fuel : nat) (s : jsstring) (props : list (jsstring * JSValue))
       {struct fuel} : result JSValue :=
  match fuel with
  | O => OutOfFuel
  | S fuel' =>
      match skip_ws s with
      | q :: r =>
          if q =? 34 then
            match string_body r [] with
            | Parsed key r1 =>
                match skip_ws r1 with
                | colon :: r2 =>
                    if colon =? 58 then
                      match value fuel' r2 with
                      | Parsed v rest =>
                          let props' := define_property props key v in
                          match skip_ws rest with
                          | c :: r3 =>
                              if c =? 44 then members fuel' r3 props'
                              else if c =? 125
                                   then Parsed (JObject props') r3
                                   else Malformed
                          | [] => Malformed
                          end
                      | Malformed => Malformed
                      | OutOfFuel => OutOfFuel
                      end
                    else Malformed
                | [] => Malformed
                end
            | Malformed => Malformed
            | OutOfFuel => OutOfFuel
            end
          else Malformed
      | [] => Malformed
      end
  end.

(** A budget no text exhausts (see [value_fuel]). *)
Definition budget (text : jsstring) : nat := 2 * List.length text + 1.

(** [JSON.parse(text)]: one value, white space around it, nothing
    else. *)
Definition parse (text : jsstring) : completion JSValue :=
  match value (budget text) text with
  | Parsed v rest =>
      match skip_ws rest with
      | [] => Normal v
      | _ :: _ => Throw SyntaxError
      end
  | Malformed => Throw SyntaxError
  | OutOfFuel => Throw SyntaxError
  end.

(** What a run of a sub-parser on [s] with budget [fuel] guarantees: text
    is consumed, and the budget only runs out when it was too small for
    [s] ([slack] is the part of the budget the caller has spent). *)
Definition sound (slack fuel : nat) (s : jsstring) (r : result JSValue)
  : Prop :=
  match r with
  | Parsed _ rest => (len rest < len s)%nat
  | Malformed => True
  | OutOfFuel => (fuel < 2 * len s + slack)%nat
  end.

End JSON.

(** ** Template literals of the module *)

Definition LF : jsstring := [10].
Definition quote : jsstring := [34].

(** [parts.join(sep)]. *)
Definition join (sep : jsstring) (parts : list jsstring) : jsstring :=
  match parts with
  | [] => []
  | p :: rest => p ++ List.concat (map (fun q => sep ++ q) rest)
  end.

(** The text of a template literal given line by line. *)
Definition text_lines (ls : list string) : jsstring :=
  join LF (map codes ls).

(** Lines 53-60: the prompt of [generateInitialScene]. *)
Definition initial_prompt : jsstring :=
  text_lines
    [ EmptyString;
      "        You are a master storyteller creating a dynamic text adventure game.";
      "        Generate the very first scene of a fantasy adventure.";
      "        Describe the scene vividly in about 2-3 paragraphs.";
      "        Based on the scene, create a detailed, artistic prompt for an image generation model that captures the essence of the scene. This prompt should focus on visual details like lighting, atmosphere, character appearance, and environment.";
      "        Finally, provide exactly 3 possible actions the player can take next. The actions should be concise, starting with a verb.";
      "        Your response MUST conform to the provided JSON schema.";
      "    " ]%string.

(** Lines 80-83: the prompt of [generateNextScene] up to the history. *)
Definition next_prompt_head : jsstring :=
  text_lines
    [ EmptyString;
      "        You are a master storyteller continuing a dynamic text adventure game.";
      "        Here is the story so far, with each entry being a new scene:";
      "        " ]%string.

(** Lines 83-85: between the history and the choice. *)
Definition next_prompt_mid : jsstring :=
  text_lines
    [ EmptyString;
      EmptyString;
      "        The player just chose to: " ]%string ++ quote.

(** Lines 85-92: the same prompt after the choice. *)
Definition next_prompt_tail : jsstring :=
  quote ++ text_lines
    [ EmptyString;
      EmptyString;
      "        Now, do the following:";
      "        1. Write the next part of the story, describing the outcome of the player's action and the new situation they are in. Describe the scene vividly in 2-3 paragraphs.";
      "        2. Based on this new scene, create a detailed, artistic prompt for an image generation model. This prompt should focus on visual details like lighting, atmosphere, character appearance, and environment.";
      "        3. Provide exactly 3 new, concise actions the player can take. The actions must be different from previous choices and relevant to the new scene. Each action should start with a verb.";
      "        Your response MUST conform to the provided JSON schema.";
      "    " ]%string.

(** ** The response validator (lines 35-50) *)

(** The response of the text call.  The SDK's declaration is not among
    the sources; the module reads the [text] accessor only, [undefined]
    ([None]) when the response carries no text. *)
Record GenerateContentResponse : Type := { text : option jsstring }.

(** Modelled from the spec: the interface [SceneData] of [../types] is
    not among the sources; it is the spec's SceneRecord, with the fields
    [sceneDescription], [imagePrompt] and [choices].  [data as SceneData]
    is a type assertion, which leaves the value as it is, so a value of
    this type is the parsed value. *)
Definition SceneData : Type := JSValue.

Definition sceneDescription : jsstring := codes "sceneDescription".
Definition imagePrompt : jsstring := codes "imagePrompt".
Definition choices : jsstring := codes "choices".

(** [a && b] in a condition: [b] is evaluated only when [a] is truthy. *)
Definition and_then (a b : completion bool) : completion bool :=
  bind a (fun x => if x then b else Normal false).
Infix "&&&" := and_then (at level 40, left associativity) : js_scope.

(** [v.length > 0] for the result [v] of a property read: a read on
    [undefined] or [null] throws; a value without [length] gives
    [undefined > 0], which is false. *)
Definition length_positive (v : option JSValue) : completion bool :=
  match v with
  | None => Throw TypeError
  | Some JNull => Throw TypeError
  | Some (JArray items) => Normal (0 <? List.length items)%nat
  | Some (JString s) => Normal (0 <? List.length s)%nat
  | Some _ => Normal false
  end.

Local Open Scope js_scope.

(** Line 40: [data && data.sceneDescription && data.imagePrompt &&
    Array.isArray(data.choices) && data.choices.length > 0]. *)
Definition basic_validation (data : JSValue) : completion bool :=
  Normal (truthy data)
  &&& (v <- get data sceneDescription ;; Normal (truthy_opt v))
  &&& (v <- get data imagePrompt ;; Normal (truthy_opt v))
  &&& (v <- get data choices ;; Normal (isArray v))
  &&& (v <- get data choices ;; length_positive v).

(** [response.text.replace(...)]: a method call on [undefined] throws. *)
Definition text_of (response : GenerateContentResponse)
  : completion jsstring :=
  match text response with
  | Some t => Normal t
  | None => Throw TypeError
  end.

(** [parseJsonResponse]; [None] is [null].  The [console.error] calls
    write to the console only and are left out. *)
Definition parseJsonResponse (response : GenerateContentResponse)
  : completion (option SceneData) :=
  try_catch
    (t <- text_of response ;;
     let jsonText := normalize t in
     data <- JSON.parse jsonText ;;
     ok <- basic_validation data ;;
     if ok then Normal (Some data) else Normal None)
    (fun error => Normal None).

(** ** The calls to the service *)

(** [responseSchema] (lines 12-33), with the SDK's [Type] tags. *)
Inductive Schema : Type :=
| TypeSTRING (description : string)
| TypeARRAY (items : Schema) (description : string)
| TypeOBJECT (properties : list (string * Schema)) (required : list string).

Definition responseSchema : Schema :=
  TypeOBJECT
    [ ("sceneDescription",
        TypeSTRING "A vivid, 2-3 paragraph description of the current scene in the text adventure game.");
      ("imagePrompt",
        TypeSTRING "A detailed, artistic prompt for an image generation model that captures the scene's essence. Focus on visual details like lighting, atmosphere, character appearance, and environment.");
      ("choices",
        TypeARRAY
          (TypeSTRING "A concise action the player can take, starting with a verb.")
          "An array of exactly 3 possible actions the player can take next.")
    ]%string
    [ "sceneDescription"; "imagePrompt"; "choices" ]%string.

Record GenerateContentConfig : Type := {
  responseMimeType : string;
  responseSchema_ : Schema
}.

Record GenerateContentParameters : Type := {
  model : string;
  contents : jsstring;
  config : GenerateContentConfig
}.

Record GenerateImagesConfig : Type := {
  numberOfImages : nat;
  outputMimeType : string;
  aspectRatio : string
}.

Record GenerateImagesParameters : Type := {
  images_model : string;
  prompt : jsstring;
  images_config : GenerateImagesConfig
}.

(** The response of the image call.  The SDK's declarations are not among
    the sources; as in the SDK every property is optional:
    [generatedImages] may be [undefined] (the module tests it), an entry
    may come without [image] (a filtered image) and an image without
    [imageBytes]; the module reads [image.imageBytes] without a test. *)
Record Image : Type := { imageBytes : option jsstring }.
Record GeneratedImage : Type := { image : option Image }.
Record GenerateImagesResponse : Type := {
  generatedImages : option (list GeneratedImage)
}.

(** An [async] function of the module: it returns, throws (its promise
    rejects), or awaits one of the two calls of the client [ai] and goes on
    with the settled outcome. *)
Inductive async (A : Type) : Type :=
| Return (a : A)
| Raise (e : JSError)
| GenerateContent (params : GenerateContentParameters)
    (k : completion GenerateContentResponse -> async A)
| GenerateImages (params : GenerateImagesParameters)
    (k : completion GenerateImagesResponse -> async A).
Arguments Return {A} a.
Arguments Raise {A} e.
Arguments GenerateContent {A} params k.
Arguments GenerateImages {A} params k.

(** [const x = await call; rest]: a rejection is thrown on. *)
Definition await {R A : Type} (rest : R -> async A)
  : completion R -> async A :=
  fun outcome =>
    match outcome with
    | Normal r => rest r
    | Throw e => Raise e
    end.

(** The service seen from the module: how its [n]-th call is answered. *)
Record Service : Type := {
  answer_content :
    nat -> GenerateContentParameters -> completion GenerateContentResponse;
  answer_images :
    nat -> GenerateImagesParameters -> completion GenerateImagesResponse
}.

Inductive Call : Type :=
| ContentCall (params : GenerateContentParameters)
| ImagesCall (params : GenerateImagesParameters).

(** Running an [async] function against a service, [n] calls having been
    made before: its outcome and the calls it makes, in order. *)
Fixpoint run {A : Type} (p : async A) (ai : Service) (n : nat)
  : completion A * list Call :=
  match p with
  | Return a => (Normal a, [])
  | Raise e => (Throw e, [])
  | GenerateContent params k =>
      let (out, calls) := run (k (answer_content ai n params)) ai (S n) in
      (out, ContentCall params :: calls)
  | GenerateImages params k =>
      let (out, calls) := run (k (answer_images ai n params)) ai (S n) in
      (out, ImagesCall params :: calls)
  end.

(** ** The wrappers (lines 52-126) *)

Definition scene_request (prompt : jsstring) : GenerateContentParameters :=
  {| model := "gemini-2.5-flash";
     contents := prompt;
     config := {| responseMimeType := "application/json";
                  responseSchema_ := responseSchema |} |}.

Definition initial_scene_error : JSError :=
  Error (codes "Failed to generate a valid initial scene from the API.").

Definition next_scene_error : JSError :=
  Error (codes "Failed to generate a valid next scene from the API.").

(** Lines 71-75 and 103-107: [if (!sceneData) throw ...; return
    sceneData]. *)
Definition checked (failure : JSError)
  (parsed : completion (option SceneData)) : async SceneData :=
  match parsed with
  | Throw e => Raise e
  | Normal sceneData =>
      if negb (truthy_opt sceneData) then Raise failure
      else match sceneData with
           | Some data => Return data
           | None => Raise failure
           end
  end.

Definition generateInitialScene : async SceneData :=
  GenerateContent (scene_request initial_prompt)
    (await (fun response =>
       checked initial_scene_error (parseJsonResponse response))).

(** [String(n)] for an array index plus one: its decimal digits. *)
Definition number_to_string (n : nat) : jsstring :=
  codes (NilEmpty.string_of_uint (Nat.to_uint n)).

(** [array.map((s, i) => f(s, i))], the index starting at [i]. *)
Fixpoint map_indexed {A B : Type} (f : A -> nat -> B) (i : nat)
  (l : list A) : list B :=
  match l with
  | [] => []
  | x :: r => f x i :: map_indexed f (S i) r
  end.

(** [`Scene ${i+1}:\n${s}`]. *)
Definition scene_block (s : jsstring) (i : nat) : jsstring :=
  codes "Scene " ++ number_to_string (i + 1) ++ codes ":" ++ LF ++ s.

Definition history_separator : jsstring := LF ++ codes "---" ++ LF.

(** Line 79. *)
Definition historyText (storyHistory : list jsstring) : jsstring :=
  join history_separator (map_indexed scene_block 0 storyHistory).

(** Lines 80-92. *)
Definition next_prompt (storyHistory : list jsstring) (choice : jsstring)
  : jsstring :=
  next_prompt_head ++ historyText storyHistory
  ++ next_prompt_mid ++ choice ++ next_prompt_tail.

Definition generateNextScene (storyHistory : list jsstring)
  (choice : jsstring) : async SceneData :=
  GenerateContent (scene_request (next_prompt storyHistory choice))
    (await (fun response =>
       checked next_scene_error (parseJsonResponse response))).

Definition image_request (prompt : jsstring) : GenerateImagesParameters :=
  {| images_model := "imagen-3.0-generate-002";
     prompt :=
       codes "masterpiece, high quality, fantasy art, cinematic lighting. "
       ++ prompt;
     images_config := {| numberOfImages := 1;
                         outputMimeType := "image/jpeg";
                         aspectRatio := "16:9" |} |}.

Definition image_error : JSError := Error (codes "Failed to generate image.").

Definition data_uri_prefix : jsstring := codes "data:image/jpeg;base64,".

(** [response.generatedImages && response.generatedImages.length > 0]. *)
Definition has_images (response : GenerateImagesResponse) : bool :=
  match generatedImages response with
  | Some images => (0 <? List.length images)%nat
  | None => false
  end.

(** [`${v}`] for a string that may be [undefined]. *)
Definition interpolate (v : option jsstring) : jsstring :=
  match v with
  | Some s => s
  | None => codes "undefined"
  end.

(** Lines 110-126.  [generatedImages[0]] of an empty array would be
    [undefined], and the read of [image] on it a [TypeError]; so is the
    read of [imageBytes] on an entry without [image].  An [imageBytes]
    that is [undefined] is interpolated as it is. *)
Definition generateImage (prompt : jsstring) : async jsstring :=
  GenerateImages (image_request prompt)
    (await (fun response =>
       if has_images response then
         match generatedImages response with
         | Some (first :: _) =>
             match image first with
             | Some img =>
                 let base64ImageBytes := imageBytes img in
                 Return (data_uri_prefix ++ interpolate base64ImageBytes)
             | None => Raise TypeError
             end
         | _ => Raise TypeError
         end
       else Raise image_error)).

(** Lines 6-8: loading the module throws when [process.env.API_KEY] is
    unset or empty. *)
Definition load (API_KEY : option jsstring) : completion unit :=
  match API_KEY with
  | Some (_ :: _) => Normal tt
  | _ => Throw (Error (codes "API_KEY environment variable is not set."))
  end.

(** ** What the validator accepts *)

Definition nonempty_array (v : option JSValue) : bool :=
  match v with
  | Some (JArray (_ :: _)) => true
  | _ => false
  end.

(** The condition of line 40 as a boolean. *)
Definition accepts (data : JSValue) : bool :=
  truthy data
  && truthy_opt (field data sceneDescription)
  && truthy_opt (field data imagePrompt)
  && isArray (field data choices)
  && nonempty_array (field data choices).

(** ** Sample inputs *)

(** The JSON string literal of an ASCII text without escapes. *)
Definition str (s : string) : jsstring := quote ++ codes s ++ quote.

(** Scenario A: the record inside a [json] code block. *)
Definition scenario_A : jsstring :=
  codes "```json" ++ LF
  ++ codes "{" ++ str "sceneDescription" ++ codes ":" ++ str "A"
  ++ codes "," ++ str "imagePrompt" ++ codes ":" ++ str "B"
  ++ codes "," ++ str "choices" ++ codes ":[" ++ str "Go north" ++ codes "]}"
  ++ LF ++ codes "```".

Definition scenario_A_record : SceneData :=
  JObject [ (sceneDescription, JString (codes "A"));
            (imagePrompt, JString (codes "B"));
            (choices, JArray [JString (codes "Go north")]) ].

(** Scenario B. *)
Definition scenario_B : jsstring := codes "not json".

(** Scenario C: an empty [choices]. *)
Definition scenario_C : jsstring :=
  codes "{" ++ str "sceneDescription" ++ codes ":" ++ str "A"
  ++ codes "," ++ str "imagePrompt" ++ codes ":" ++ str "B"
  ++ codes "," ++ str "choices" ++ codes ":[]}".

(** A reply with a number for [sceneDescription], non-string [choices]
    and a fourth field. *)
Definition loosely_typed : jsstring :=
  codes "{" ++ str "sceneDescription" ++ codes ":1"
  ++ codes "," ++ str "imagePrompt" ++ codes ":" ++ str "B"
  ++ codes "," ++ str "choices" ++ codes ":[2,null]"
  ++ codes "," ++ str "extra" ++ codes ":true}".

Definition loosely_typed_record : SceneData :=
  JObject [ (sceneDescription, JNumber 1 0);
            (imagePrompt, JString (codes "B"));
            (choices, JArray [JNumber 2 0; JNull]);
            (codes "extra", JBool true) ].

(** A reply without [imagePrompt]. *)
Definition missing_imagePrompt : jsstring :=
  codes "{" ++ str "sceneDescription" ++ codes ":" ++ str "A"
  ++ codes "," ++ str "choices" ++ codes ":[" ++ str "Go north" ++ codes "]}".

(** A marker between two letters. *)
Definition interior_payload : jsstring := codes "a" ++ fence ++ codes "b".

(** A text without markers, with a leading space. *)
Definition padded_text : jsstring := codes " a".

(** A service that gives the same answers to every call. *)
Definition constant_service
  (content : completion GenerateContentResponse)
  (images : completion GenerateImagesResponse) : Service :=
  {| answer_content := fun _ _ => content;
     answer_images := fun _ _ => images |}.

Definition no_images : GenerateImagesResponse :=
  {| generatedImages := Some [] |}.

Definition one_image : GenerateImagesResponse :=
  {| generatedImages :=
       Some [ {| image := Some {| imageBytes := Some (codes "QUJD") |} |} ] |}.

(** A reply whose only image carries no bytes. *)
Definition image_without_bytes : GenerateImagesResponse :=
  {| generatedImages := Some [ {| image := Some {| imageBytes := None |} |} ] |}.

(** A reply whose only entry carries no image. *)
Definition entry_without_image : GenerateImagesResponse :=
  {| generatedImages := Some [ {| image := None |} ] |}.

(** The names of the own properties of a value, in order. *)
Definition keys (v : JSValue) : list jsstring :=
  match v with
  | JObject props => map fst props
  | _ => []
  end.

(** A reply with the three fields as asked for, and one more. *)
Definition extra_field_reply : jsstring :=
  codes "{" ++ str "sceneDescription" ++ codes ":" ++ str "A"
  ++ codes "," ++ str "imagePrompt" ++ codes ":" ++ str "B"
  ++ codes "," ++ str "choices" ++ codes ":[" ++ str "Go north" ++ codes "]"
  ++ codes "," ++ str "extra" ++ codes ":true}".

Definition extra_field_record : SceneData :=
  JObject [ (sceneDescription, JString (codes "A"));
            (imagePrompt, JString (codes "B"));
            (choices, JArray [JString (codes "Go north")]);
            (codes "extra", JBool true) ].



(** ** Notions used by the further properties *)

(** [subseq a b]: [a] is [b] with some code units left out. *)
Inductive subseq : jsstring -> jsstring -> Prop :=
| subseq_nil : subseq [] []
| subseq_drop c a b : subseq a b -> subseq a (c :: b)
| subseq_keep c a b : subseq a b -> subseq (c :: a) (c :: b).

(** A text made of white space only. *)
Definition all_ws (ws : jsstring) : Prop :=
  Forall (fun c => isWhiteSpace c = true) ws.

(** What a caller can rely on in a record the validator let through. *)
Definition valid_scene (data : SceneData) : Prop :=
  truthy_opt (field data sceneDescription) = true
  /\ truthy_opt (field data imagePrompt) = true
  /\ exists c cs, field data choices = Some (JArray (c :: cs)).

(** A reply whose [sceneDescription] is the empty string. *)
Definition empty_description : jsstring :=
  codes "{" ++ str "sceneDescription" ++ codes ":" ++ quote ++ quote
  ++ codes "," ++ str "imagePrompt" ++ codes ":" ++ str "B"
  ++ codes "," ++ str "choices" ++ codes ":[" ++ str "Go north" ++ codes "]}".

(** * Part II: facts *)

(** ** Prefixes *)

Section Prefixes.

Lemma eqb_eq (a b : jsstring) : JSString.eqb a b = true <-> a = b.
Proof.
  unfold JSString.eqb. destruct (list_eq_dec N.eq_dec a b); split; congruence.
Qed.

Lemma eqb_refl (a : jsstring) : JSString.eqb a a = true.
Proof. now apply eqb_eq. Qed.

Lemma starts_with_app (p s : jsstring) : starts_with p (p ++ s) = true.
Proof.
  induction p as [|a p IH]; simpl; [reflexivity|].
  now rewrite N.eqb_refl, IH.
Qed.

Lemma starts_with_inv (p s : jsstring) :
  starts_with p s = true -> exists r, s = p ++ r.
Proof.
  revert s. induction p as [|a p IH]; intros s H; simpl in *.
  - now exists s.
  - destruct s as [|b s]; [discriminate|].
    apply andb_true_iff in H as [Hab Hp].
    apply N.eqb_eq in Hab. subst b.
    destruct (IH _ Hp) as [r ->]. now exists r.
Qed.

End Prefixes.

(** ** The replace step, equation by equation *)

Section ReplaceFences.

Lemma replace_fences_json (r : jsstring) :
  replace_fences (fence_json ++ r) = replace_fences r.
Proof. reflexivity. Qed.

Lemma replace_fences_fence (r : jsstring) :
  starts_with json_word r = false ->
  replace_fences (fence ++ r) = replace_fences r.
Proof.
  intros H.
  destruct r as [|a [|b [|c [|d r]]]]; try reflexivity.
  change (replace_fences (fence ++ a :: b :: c :: d :: r))
    with (if starts_with json_word (a :: b :: c :: d :: r)
          then replace_fences r
          else replace_fences (a :: b :: c :: d :: r)).
  now rewrite H.
Qed.

Lemma replace_fences_copy (c : N) (r : jsstring) :
  starts_with fence (c :: r) = false ->
  replace_fences (c :: r) = c :: replace_fences r.
Proof.
  intros H.
  destruct r as [|c2 [|c3 t3]]; try reflexivity.
  change (replace_fences (c :: c2 :: c3 :: t3))
    with (if starts_with fence (c :: c2 :: c3 :: t3)
          then match t3 with
               | _ :: _ :: _ :: _ :: t7 =>
                   if starts_with json_word t3
                   then replace_fences t7 else replace_fences t3
               | _ => replace_fences t3
               end
          else c :: replace_fences (c2 :: c3 :: t3)).
  now rewrite H.
Qed.

Lemma scan_cases (s : jsstring) : scan_case s.
Proof.
  destruct s as [|c r]; [now apply scan_end|].
  destruct (starts_with fence (c :: r)) eqn:Hf.
  - destruct (starts_with_inv _ _ Hf) as [t Ht].
    destruct (starts_with json_word t) eqn:Hj.
    + destruct (starts_with_inv _ _ Hj) as [u ->].
      assert (E : c :: r = fence_json ++ u)
        by (rewrite Ht; unfold fence_json; now rewrite <- app_assoc).
      rewrite E. apply (scan_json _ u); auto using replace_fences_json.
    + rewrite Ht. apply (scan_fence _ t); auto using replace_fences_fence.
  - apply (scan_copy _ c r); auto using replace_fences_copy.
Qed.

(** Induction along the scan. *)
Lemma replace_fences_ind (P : jsstring -> Prop) :
  P [] ->
  (forall r, P r -> P (fence_json ++ r)) ->
  (forall r, starts_with json_word r = false -> P r -> P (fence ++ r)) ->
  (forall c r, starts_with fence (c :: r) = false -> P r -> P (c :: r)) ->
  forall s, P s.
Proof.
  intros Hnil Hjson Hfence Hcopy s.
  remember (List.length s) as n eqn:Hn.
  revert s Hn. induction n as [n IH] using lt_wf_ind. intros s Hn.
  destruct (scan_cases s) as [-> | r -> _ | r -> Hj _ | c r -> Hf _].
  - exact Hnil.
  - apply Hjson. apply (IH (List.length r)); [|reflexivity].
    subst n. rewrite length_app. simpl. lia.
  - apply Hfence; [exact Hj|]. apply (IH (List.length r)); [|reflexivity].
    subst n. rewrite length_app. simpl. lia.
  - apply Hcopy; [exact Hf|]. apply (IH (List.length r)); [|reflexivity].
    subst n. simpl. lia.
Qed.

End ReplaceFences.

(** ** Facts about [trim] and about fence-free texts *)

Section Normalization.

Lemma trimStart_suffix (s : jsstring) :
  exists ws, s = ws ++ trimStart s.
Proof.
  induction s as [|c r [ws IH]]; [now exists []|].
  simpl. destruct (isWhiteSpace c).
  - exists (c :: ws). simpl. now f_equal.
  - now exists [].
Qed.

Lemma trimEnd_prefix (s : jsstring) :
  exists ws, s = trimEnd s ++ ws.
Proof.
  destruct (trimStart_suffix (rev s)) as [ws H].
  exists (rev ws). unfold trimEnd.
  rewrite <- rev_app_distr, <- H. symmetry. apply rev_involutive.
Qed.

Lemma trimStart_clean (s : jsstring) : starts_clean (trimStart s).
Proof.
  induction s as [|c r IH]; simpl; [exact I|].
  destruct (isWhiteSpace c) eqn:E; [exact IH|exact E].
Qed.

Lemma trimStart_id (s : jsstring) : starts_clean s -> trimStart s = s.
Proof.
  destruct s as [|c r]; simpl; [reflexivity|]. now intros ->.
Qed.

Lemma starts_clean_prefix (a b : jsstring) :
  starts_clean (a ++ b) -> starts_clean a.
Proof. destruct a; simpl; auto. Qed.

Lemma trimEnd_idem (s : jsstring) : trimEnd (trimEnd s) = trimEnd s.
Proof.
  unfold trimEnd. rewrite rev_involutive.
  now rewrite (trimStart_id _ (trimStart_clean (rev s))).
Qed.

Lemma trim_clean (s : jsstring) : starts_clean (trim s).
Proof.
  unfold trim.
  destruct (trimEnd_prefix (trimStart s)) as [ws H].
  apply (starts_clean_prefix _ ws). rewrite <- H. apply trimStart_clean.
Qed.

Lemma trim_idem (s : jsstring) : trim (trim s) = trim s.
Proof.
  unfold trim at 1. rewrite (trimStart_id _ (trim_clean s)).
  unfold trim. apply trimEnd_idem.
Qed.

Lemma starts_with_app_l (p a b : jsstring) :
  starts_with p a = true -> starts_with p (a ++ b) = true.
Proof.
  intros H. destruct (starts_with_inv _ _ H) as [r ->].
  rewrite <- app_assoc. apply starts_with_app.
Qed.

Lemma includes_suffix (p a b : jsstring) :
  includes p (a ++ b) = false -> includes p b = false.
Proof.
  induction a as [|c a IH]; simpl; [auto|].
  intros H. apply orb_false_iff in H as [_ H]. auto.
Qed.

Lemma includes_prefix (p a b : jsstring) :
  includes p (a ++ b) = false -> includes p a = false.
Proof.
  induction a as [|c a IH]; intros H.
  - destruct p as [|x p]; [|reflexivity].
    destruct b; simpl in H; discriminate.
  - simpl in H. apply orb_false_iff in H as [H1 H2].
    simpl. apply orb_false_iff. split; [|auto].
    destruct (starts_with p (c :: a)) eqn:E; [|reflexivity].
    apply (starts_with_app_l _ _ b) in E. simpl in E. congruence.
Qed.

Lemma fence_free_trim (s : jsstring) : fence_free s -> fence_free (trim s).
Proof.
  unfold fence_free, trim. intros H.
  destruct (trimStart_suffix s) as [ws Hs].
  destruct (trimEnd_prefix (trimStart s)) as [ws' He].
  rewrite Hs in H. apply includes_suffix in H.
  rewrite He in H. now apply includes_prefix in H.
Qed.

(** The replace step leaves a fence-free text as it is. *)
Lemma replace_fences_fence_free (s : jsstring) :
  fence_free s -> replace_fences s = s.
Proof.
  unfold fence_free. induction s as [|c r IH]; [reflexivity|].
  intros H. simpl in H. apply orb_false_iff in H as [H1 H2].
  rewrite (replace_fences_copy c r) by exact H1.
  now rewrite IH.
Qed.

Lemma replace_fences_two_ticks (r : jsstring) :
  starts_with two_ticks r = false ->
  starts_with two_ticks (replace_fences r) = false.
Proof.
  destruct r as [|a [|b r]]; intros H; try exact H.
  assert (Hf : starts_with fence (a :: b :: r) = false).
  { change (starts_with fence (a :: b :: r))
      with ((backtick =? a) && ((backtick =? b) && starts_with [backtick] r)).
    change ((backtick =? a) && ((backtick =? b) && true) = false) in H.
    destruct (backtick =? a), (backtick =? b); simpl in *; congruence. }
  rewrite (replace_fences_copy _ _ Hf).
  change ((backtick =? a) && ((backtick =? b) && true) = false) in H.
  destruct (backtick =? a) eqn:Ea.
  - destruct (backtick =? b) eqn:Eb; [discriminate|].
    assert (Hb : starts_with fence (b :: r) = false).
    { change (starts_with fence (b :: r))
        with ((backtick =? b) && starts_with two_ticks r).
      now rewrite Eb. }
    rewrite (replace_fences_copy _ _ Hb).
    change ((backtick =? a) && ((backtick =? b) && true) = false).
    now rewrite Ea, Eb.
  - change ((backtick =? a)
            && starts_with [backtick] (replace_fences (b :: r)) = false).
    now rewrite Ea.
Qed.

(** After the replace step no fence is left anywhere in the text. *)
Lemma replace_fences_fence_free_out (s : jsstring) :
  fence_free (replace_fences s).
Proof.
  unfold fence_free.
  induction s as [| r IH | r Hj IH | c r Hf IH] using replace_fences_ind.
  - reflexivity.
  - now rewrite replace_fences_json.
  - now rewrite replace_fences_fence.
  - rewrite (replace_fences_copy _ _ Hf).
    change (includes fence (c :: replace_fences r))
      with (starts_with fence (c :: replace_fences r)
            || includes fence (replace_fences r)).
    rewrite IH, orb_false_r.
    change (starts_with fence (c :: replace_fences r))
      with ((backtick =? c) && starts_with two_ticks (replace_fences r)).
    change (starts_with fence (c :: r))
      with ((backtick =? c) && starts_with two_ticks r) in Hf.
    destruct (backtick =? c); [|reflexivity].
    rewrite andb_true_l in *. now apply replace_fences_two_ticks.
Qed.

Lemma normalize_fence_free (s : jsstring) : fence_free (normalize s).
Proof. apply fence_free_trim, replace_fences_fence_free_out. Qed.

Lemma normalize_fence_free_in (s : jsstring) :
  fence_free s -> normalize s = trim s.
Proof. intros H. unfold normalize. now rewrite replace_fences_fence_free. Qed.

End Normalization.

(** ** The recursion budget of [JSON.parse] is never exhausted *)

Module JSONFacts.
Import JSON.

Lemma skip_ws_length (s : jsstring) : (len (skip_ws s) <= len s)%nat.
Proof.
  induction s as [|c r IH]; simpl; [lia|].
  destruct (is_ws c); simpl; lia.
Qed.

Lemma string_body_length (s acc : jsstring) :
  match string_body s acc with
  | Parsed _ rest => (len rest < len s)%nat
  | Malformed => True
  | OutOfFuel => False
  end.
Proof.
  remember (len s) as n eqn:Hn. revert s acc Hn.
  induction n as [n IH] using lt_wf_ind. intros s acc ->.
  destruct s as [|c r]; [exact I|].
  cbn [string_body].
  destruct (c =? 34); [simpl; lia|].
  destruct (c =? 92).
  - destruct r as [|e r1]; [exact I|].
    destruct (e =? 117).
    + destruct r1 as [|h1 [|h2 [|h3 [|h4 r5]]]]; try exact I.
      destruct (hex4 h1 h2 h3 h4); [|exact I].
      specialize (IH (len r5) ltac:(simpl; lia) r5 (n :: acc) eq_refl).
      destruct (string_body r5 (n :: acc)); simpl in *; auto; lia.
    + destruct (simple_escape e); [|exact I].
      specialize (IH (len r1) ltac:(simpl; lia) r1 (n :: acc) eq_refl).
      destruct (string_body r1 (n :: acc)); simpl in *; auto; lia.
  - destruct (c <? 32); [exact I|].
    specialize (IH (len r) ltac:(simpl; lia) r (c :: acc) eq_refl).
    destruct (string_body r (c :: acc)); simpl in *; auto; lia.
Qed.

Lemma span_digits_length (s : jsstring) :
  (len (snd (span_digits s)) <= len s)%nat.
Proof.
  induction s as [|c r IH]; simpl; [lia|].
  destruct (is_digit c); [|simpl; lia].
  destruct (span_digits r); simpl in *; lia.
Qed.

Lemma int_part_length (s : jsstring) :
  match int_part s with
  | Parsed _ rest => (len rest < len s)%nat
  | Malformed => True
  | OutOfFuel => False
  end.
Proof.
  destruct s as [|c r]; [exact I|]. unfold int_part.
  destruct (c =? 48); [simpl; lia|].
  destruct (is_digit c); [|exact I].
  pose proof (span_digits_length r) as H.
  destruct (span_digits r); simpl in *; lia.
Qed.

Lemma frac_part_length (s : jsstring) :
  match frac_part s with
  | Parsed _ rest => (len rest <= len s)%nat
  | Malformed => True
  | OutOfFuel => False
  end.
Proof.
  destruct s as [|c r]; [simpl; lia|]. unfold frac_part.
  destruct (c =? 46); [|simpl; lia].
  pose proof (span_digits_length r) as H.
  destruct (span_digits r) as [[|d ds] rest]; simpl in *; auto; lia.
Qed.

Lemma exp_part_length (s : jsstring) :
  match exp_part s with
  | Parsed _ rest => (len rest <= len s)%nat
  | Malformed => True
  | OutOfFuel => False
  end.
Proof.
  destruct s as [|c r]; [simpl; lia|]. unfold exp_part.
  destruct ((c =? 101) || (c =? 69)); [|simpl; lia].
  destruct r as [|sgn r'].
  - simpl. exact I.
  - destruct (sgn =? 45); [|destruct (sgn =? 43)].
    + pose proof (span_digits_length r') as H.
      destruct (span_digits r') as [[|d ds] rest]; simpl in *; auto; lia.
    + pose proof (span_digits_length r') as H.
      destruct (span_digits r') as [[|d ds] rest]; simpl in *; auto; lia.
    + pose proof (span_digits_length (sgn :: r')) as H.
      destruct (span_digits (sgn :: r')) as [[|d ds] rest];
        simpl in *; auto; lia.
Qed.

Lemma number_length (s : jsstring) :
  match number s with
  | Parsed _ rest => (len rest < len s)%nat
  | Malformed => True
  | OutOfFuel => False
  end.
Proof.
  unfold number.
  set (p := match s with
            | [] => (false, s)
            | c :: r => if c =? 45 then (true, r) else (false, s)
            end).
  assert (Hp : (len (snd p) <= len s)%nat).
  { subst p. destruct s as [|c r]; simpl; [lia|].
    destruct (c =? 45); simpl; lia. }
  destruct p as [neg s1]. simpl in Hp.
  pose proof (int_part_length s1) as H1.
  destruct (int_part s1) as [ip s2| |]; auto.
  pose proof (frac_part_length s2) as H2.
  destruct (frac_part s2) as [fp s3| |]; auto.
  pose proof (exp_part_length s3) as H3.
  destruct (exp_part s3) as [ex s4| |]; auto. lia.
Qed.

Lemma literal_length (w : string) (v : JSValue) (c : N) (r : jsstring) :
  w <> EmptyString ->
  match literal w v (c :: r) with
  | Parsed _ rest => (len rest < len (c :: r))%nat
  | Malformed => True
  | OutOfFuel => False
  end.
Proof.
  intros Hw. unfold literal.
  destruct (starts_with (codes w) (c :: r)); [|exact I].
  destruct w as [|a w]; [congruence|].
  simpl. pose proof (length_skipn (String.length w) r). lia.
Qed.

End JSONFacts.

Module JSONFuel.
Import JSON JSONFacts.

#[local] Arguments N.eqb : simpl never.
#[local] Arguments skip_ws : simpl never.
#[local] Arguments string_body : simpl never.
#[local] Arguments number : simpl never.
#[local] Arguments literal : simpl never.
#[local] Arguments is_digit : simpl never.
#[local] Arguments Nat.mul : simpl never.

Ltac ws_facts :=
  repeat match goal with
         | H : skip_ws ?s = _ |- _ =>
             let L := fresh "L" in
             pose proof (skip_ws_length s) as L; rewrite H in L;
             revert H
         end; intros.

Lemma value_sound (fuel : nat) :
  (forall s, sound 1 fuel s (value fuel s))
  /\ (forall s acc, sound 2 fuel s (elements fuel s acc))
  /\ (forall s props, sound 2 fuel s (members fuel s props)).
Proof.
  induction fuel as [|f (IHv & IHe & IHm)];
    [repeat split; intros; simpl; lia|].
  split; [|split].
  - intros s. simpl.
    destruct (skip_ws s) as [|c r] eqn:Hs; [exact I|]. ws_facts.
    destruct (c =? 123).
    { destruct (skip_ws r) as [|c' r'] eqn:Hr; [exact I|]. ws_facts.
      destruct (c' =? 125); [simpl in *; lia|].
      specialize (IHm (c' :: r') []).
      destruct (members f (c' :: r') []); simpl in *; auto; lia. }
    destruct (c =? 91).
    { destruct (skip_ws r) as [|c' r'] eqn:Hr; [exact I|]. ws_facts.
      destruct (c' =? 93); [simpl in *; lia|].
      specialize (IHe (c' :: r') []).
      destruct (elements f (c' :: r') []); simpl in *; auto; lia. }
    destruct (c =? 34).
    { pose proof (string_body_length r []) as Hb.
      destruct (string_body r []); simpl in *; auto; try lia. }
    destruct ((c =? 45) || is_digit c).
    { pose proof (number_length (c :: r)) as Hn.
      destruct (number (c :: r)); simpl in *; auto; try lia. }
    destruct (c =? 116).
    { pose proof (literal_length "true" (JBool true) c r ltac:(discriminate)) as Hl.
      destruct (literal "true" (JBool true) (c :: r)); simpl in *; auto; try lia. }
    destruct (c =? 102).
    { pose proof (literal_length "false" (JBool false) c r ltac:(discriminate)) as Hl.
      destruct (literal "false" (JBool false) (c :: r)); simpl in *; auto; try lia. }
    destruct (c =? 110); [|exact I].
    pose proof (literal_length "null" JNull c r ltac:(discriminate)) as Hl.
    destruct (literal "null" JNull (c :: r)); simpl in *; auto; try lia.
  - intros s acc. simpl.
    specialize (IHv s).
    destruct (value f s) as [v rest| |]; simpl in *; auto; [|lia].
    destruct (skip_ws rest) as [|c r] eqn:Hs; [exact I|]. ws_facts.
    destruct (c =? 44).
    { specialize (IHe r (v :: acc)).
      destruct (elements f r (v :: acc)); simpl in *; auto; lia. }
    destruct (c =? 93); simpl in *; auto; lia.
  - intros s props. simpl.
    destruct (skip_ws s) as [|q r] eqn:Hs; [exact I|]. ws_facts.
    destruct (q =? 34); [|exact I].
    pose proof (string_body_length r []) as Hb.
    destruct (string_body r []) as [key r1| |]; simpl in *; auto; try lia.
    destruct (skip_ws r1) as [|colon r2] eqn:Hr1; [exact I|]. ws_facts.
    destruct (colon =? 58); [|exact I].
    specialize (IHv r2).
    destruct (value f r2) as [v rest| |]; simpl in *; auto; [|lia].
    destruct (skip_ws rest) as [|c r3] eqn:Hr; [exact I|]. ws_facts.
    destruct (c =? 44).
    { specialize (IHm r3 (define_property props key v)).
      destruct (members f r3 (define_property props key v));
        simpl in *; auto; lia. }
    destruct (c =? 125); simpl in *; auto; lia.
Qed.

(** [JSON.parse] never runs out of budget: it reports a syntax error only
    for a text that is not JSON. *)
Lemma value_fuel (text : jsstring) :
  value (budget text) text <> OutOfFuel.
Proof.
  destruct (value_sound (budget text)) as [H _]. specialize (H text).
  intros E. rewrite E in H. unfold sound, budget in H. lia.
Qed.

(** A syntax error of [JSON.parse] is a syntax error of the text: no
    value at its head, or something other than white space after it. *)
Lemma parse_Throw (text : jsstring) (e : JSError) :
  parse text = Throw e ->
  e = SyntaxError
  /\ (value (budget text) text = Malformed
      \/ exists v rest, value (budget text) text = Parsed v rest
                        /\ skip_ws rest <> []).
Proof.
  unfold parse. pose proof (value_fuel text) as Hfuel.
  destruct (value (budget text) text) as [v rest| |]; [| |congruence].
  - destruct (skip_ws rest) as [|c r] eqn:E; [discriminate|].
    intros [= <-]. split; [reflexivity|]. right. exists v, rest.
    split; [reflexivity|]. rewrite E. discriminate.
  - intros [= <-]. auto.
Qed.

End JSONFuel.

(** ** [JSON.parse] on small texts *)

Section ParseExamples.

Example parse_nested :
  JSON.parse (codes " [1, 2.50e-3, true, null, [ ], {}] ")
  = Normal (JArray [ JNumber 1 0; JNumber 250 (-5); JBool true; JNull;
                     JArray []; JObject [] ]).
Proof. reflexivity. Qed.

Example parse_repeated_name :
  JSON.parse (codes "{" ++ str "a" ++ codes ":1," ++ str "b" ++ codes ":2,"
              ++ str "a" ++ codes ":3}")
  = Normal (JObject [ (codes "a", JNumber 3 0); (codes "b", JNumber 2 0) ]).
Proof. reflexivity. Qed.

Example parse_escapes :
  JSON.parse (quote ++ codes "a\n\u0041\/" ++ quote)
  = Normal (JString [97; 10; 65; 47]).
Proof. reflexivity. Qed.

Example parse_rejects :
  map JSON.parse
    [ codes "01"; codes "[1,]"; codes "1."; codes "tru"; codes "nullx";
      []; codes "{}{}"; quote ++ codes "a"; codes "{a:1}" ]
  = repeat (Throw SyntaxError) 9.
Proof. reflexivity. Qed.

(** A literal below half the least subnormal is zero, hence falsy. *)
Example tiny_number_falsy :
  truthy (JNumber 2 (-324)) = false /\ truthy (JNumber 3 (-324)) = true.
Proof. split; reflexivity. Qed.

Example replace_fences_scan :
  replace_fences (codes "a```b````json`c``") = codes "ab`json`c``".
Proof. reflexivity. Qed.

End ParseExamples.

(** ** What the validator accepts: the condition of line 40 *)

Section Validator.

(** Evaluating the condition never throws: each read that could is
    guarded by the operand before it. *)
Lemma basic_validation_spec (data : JSValue) :
  basic_validation data = Normal (accepts data).
Proof.
  unfold basic_validation, accepts, and_then.
  destruct data; try reflexivity; cbn [bind get truthy];
    try (destruct (negb _); [|reflexivity]);
    try (destruct (number_nonzero _ _); [|reflexivity]);
    try (destruct b; [|reflexivity]);
    cbn [andb];
    (destruct (truthy_opt (field _ sceneDescription)); [|reflexivity]);
    (destruct (truthy_opt (field _ imagePrompt)); [|reflexivity]);
    (destruct (field _ choices) as [[| | | |[|c cs]|]|]; reflexivity).
Qed.

Lemma parseJsonResponse_spec (response : GenerateContentResponse)
  (t : jsstring) (data : JSValue) :
  text response = Some t ->
  JSON.parse (normalize t) = Normal data ->
  parseJsonResponse response
  = Normal (if accepts data then Some data else None).
Proof.
  intros Ht Hp. unfold parseJsonResponse, text_of. rewrite Ht.
  cbn [bind]. rewrite Hp. cbn [bind]. rewrite basic_validation_spec.
  cbn [bind]. now destruct (accepts data).
Qed.

Lemma parseJsonResponse_total (response : GenerateContentResponse) :
  exists r, parseJsonResponse response = Normal r.
Proof.
  unfold parseJsonResponse, text_of.
  destruct (text response) as [t|]; cbn [bind try_catch]; [|eauto].
  destruct (JSON.parse (normalize t)) as [data|e]; cbn [bind try_catch];
    [|eauto].
  rewrite basic_validation_spec. cbn [bind].
  destruct (accepts data); cbn [try_catch]; eauto.
Qed.

Lemma parseJsonResponse_inv (response : GenerateContentResponse)
  (data : SceneData) :
  parseJsonResponse response = Normal (Some data) ->
  exists t, text response = Some t
            /\ JSON.parse (normalize t) = Normal data
            /\ accepts data = true.
Proof.
  unfold parseJsonResponse, text_of.
  destruct (text response) as [t|]; cbn [bind try_catch]; [|discriminate].
  destruct (JSON.parse (normalize t)) as [d|e] eqn:Hp;
    cbn [bind try_catch]; [|discriminate].
  rewrite basic_validation_spec. cbn [bind].
  destruct (accepts d) eqn:E; cbn [try_catch]; [|discriminate].
  intros [= <-]. exists t. auto.
Qed.

Lemma accepts_truthy (data : JSValue) :
  accepts data = true -> truthy data = true.
Proof.
  unfold accepts. intros H.
  repeat (apply andb_true_iff in H as [H _]). exact H.
Qed.

(** Truthy fields and a non-empty array are all the condition asks
    for. *)
Lemma accepts_intro (data : JSValue) (c : JSValue) (cs : list JSValue) :
  truthy_opt (field data sceneDescription) = true ->
  truthy_opt (field data imagePrompt) = true ->
  field data choices = Some (JArray (c :: cs)) ->
  accepts data = true.
Proof.
  intros Hs Hi Hc. unfold accepts. rewrite Hs, Hi, Hc.
  destruct data; try discriminate. reflexivity.
Qed.

Lemma accepts_missing (data : JSValue) :
  field data sceneDescription = None
  \/ field data imagePrompt = None
  \/ field data choices = None
  \/ field data choices = Some (JArray []) ->
  accepts data = false.
Proof.
  unfold accepts.
  intros [H | [H | [H | H]]]; rewrite H; cbn;
    repeat rewrite ?andb_false_r, ?andb_false_l; reflexivity.
Qed.

End Validator.

(** ** The validator: claims C1, C3, C4, C9, C10 *)

(** C1, as the code has it.  When the text, once normalized, parses as
    JSON to a value with a non-empty string [sceneDescription], a non-empty
    string [imagePrompt] and a [choices] array of at least one element,
    [parseJsonResponse] succeeds; the record it returns is the parsed value
    itself: the three fields are there with the values they were parsed
    to, and so is every other field of the parsed value. *)
Theorem parseJsonResponse_valid (response : GenerateContentResponse)
  (t : jsstring) (data : JSValue) (sd ip : jsstring)
  (c : JSValue) (cs : list JSValue) :
  text response = Some t ->
  JSON.parse (normalize t) = Normal data ->
  field data sceneDescription = Some (JString sd) -> sd <> [] ->
  field data imagePrompt = Some (JString ip) -> ip <> [] ->
  field data choices = Some (JArray (c :: cs)) ->
  exists record : SceneData,
    parseJsonResponse response = Normal (Some record)
    /\ record = data
    /\ field record sceneDescription = Some (JString sd)
    /\ field record imagePrompt = Some (JString ip)
    /\ field record choices = Some (JArray (c :: cs)).
Proof.
  intros Ht Hp Hs Hsd Hi Hip Hc.
  exists data. repeat split; try assumption.
  rewrite (parseJsonResponse_spec _ _ _ Ht Hp).
  rewrite (accepts_intro data c cs); [reflexivity| | |exact Hc].
  - rewrite Hs. destruct sd; [congruence|reflexivity].
  - rewrite Hi. destruct ip; [congruence|reflexivity].
Qed.

Lemma parseJsonResponse_valid_witness :
  exists record : SceneData,
    parseJsonResponse {| text := Some scenario_A |} = Normal (Some record)
    /\ record = scenario_A_record
    /\ field record sceneDescription = Some (JString (codes "A"))
    /\ field record imagePrompt = Some (JString (codes "B"))
    /\ field record choices = Some (JArray [JString (codes "Go north")]).
Proof.
  apply (parseJsonResponse_valid {| text := Some scenario_A |} scenario_A
           scenario_A_record (codes "A") (codes "B")
           (JString (codes "Go north")) []);
    try reflexivity; discriminate.
Defined.

(** C1 as stated fails: the record returned need not have exactly the
    three fields; a fourth field of the reply is returned with them. *)
Lemma extra_field_returned :
  JSON.parse (normalize extra_field_reply) = Normal extra_field_record
  /\ field extra_field_record sceneDescription = Some (JString (codes "A"))
  /\ field extra_field_record imagePrompt = Some (JString (codes "B"))
  /\ field extra_field_record choices
     = Some (JArray [JString (codes "Go north")])
  /\ parseJsonResponse {| text := Some extra_field_reply |}
     = Normal (Some extra_field_record)
  /\ keys extra_field_record
     = [sceneDescription; imagePrompt; choices; codes "extra"]
  /\ keys extra_field_record <> [sceneDescription; imagePrompt; choices].
Proof. repeat split. discriminate. Qed.

(** C3.  [parseJsonResponse] never throws: whatever the response, it
    returns normally; and it returns [null] when the normalized text is not
    JSON (and when the response has no text at all). *)
Theorem parseJsonResponse_never_throws (response : GenerateContentResponse) :
  (exists r, parseJsonResponse response = Normal r)
  /\ (forall t e,
        text response = Some t ->
        JSON.parse (normalize t) = Throw e ->
        parseJsonResponse response = Normal None)
  /\ (text response = None -> parseJsonResponse response = Normal None).
Proof.
  split; [apply parseJsonResponse_total|]. split.
  - intros t e Ht Hp. unfold parseJsonResponse, text_of.
    rewrite Ht. cbn [bind]. rewrite Hp. reflexivity.
  - intros Ht. unfold parseJsonResponse, text_of. now rewrite Ht.
Qed.

Lemma parseJsonResponse_never_throws_witness :
  JSON.parse (normalize scenario_B) = Throw SyntaxError
  /\ parseJsonResponse {| text := Some scenario_B |} = Normal None.
Proof.
  split; [reflexivity|].
  apply (parseJsonResponse_never_throws {| text := Some scenario_B |})
    with (t := scenario_B) (e := SyntaxError); reflexivity.
Defined.

(** C4.  When the normalized text parses but the parsed value lacks
    [sceneDescription], [imagePrompt] or [choices], or its [choices] is the
    empty array, [parseJsonResponse] returns [null]; so it does on
    scenario C. *)
Theorem parseJsonResponse_incomplete :
  (forall (response : GenerateContentResponse) (t : jsstring)
          (data : JSValue),
      text response = Some t ->
      JSON.parse (normalize t) = Normal data ->
      field data sceneDescription = None
      \/ field data imagePrompt = None
      \/ field data choices = None
      \/ field data choices = Some (JArray []) ->
      parseJsonResponse response = Normal None)
  /\ parseJsonResponse {| text := Some scenario_C |} = Normal None.
Proof.
  split; [|reflexivity].
  intros response t data Ht Hp H.
  rewrite (parseJsonResponse_spec _ _ _ Ht Hp).
  now rewrite (accepts_missing data H).
Qed.

Lemma parseJsonResponse_incomplete_witness :
  parseJsonResponse {| text := Some missing_imagePrompt |} = Normal None.
Proof.
  apply (proj1 parseJsonResponse_incomplete
           {| text := Some missing_imagePrompt |} missing_imagePrompt
           (JObject [ (sceneDescription, JString (codes "A"));
                      (choices, JArray [JString (codes "Go north")]) ]));
    [reflexivity | reflexivity | right; left; reflexivity].
Defined.

(** C9.  Scenario A: on the record wrapped in a [json] code block,
    [parseJsonResponse] returns the record with [sceneDescription] A,
    [imagePrompt] B and the single choice Go north. *)
Theorem parseJsonResponse_scenario_A :
  parseJsonResponse {| text := Some scenario_A |}
  = Normal (Some scenario_A_record).
Proof. reflexivity. Qed.

(** C10.  The validator checks truthiness and array-ness only, never the
    types: whenever [sceneDescription] and [imagePrompt] are truthy and
    [choices] is a non-empty array, the whole parsed value is returned;
    for instance with a number for [sceneDescription], a number and
    [null] in [choices], and a fourth field, which is still there in the
    result. *)
Theorem parseJsonResponse_unchecked_types :
  (forall (response : GenerateContentResponse) (t : jsstring)
          (data c : JSValue) (cs : list JSValue),
      text response = Some t ->
      JSON.parse (normalize t) = Normal data ->
      truthy_opt (field data sceneDescription) = true ->
      truthy_opt (field data imagePrompt) = true ->
      field data choices = Some (JArray (c :: cs)) ->
      parseJsonResponse response = Normal (Some data))
  /\ parseJsonResponse {| text := Some loosely_typed |}
     = Normal (Some loosely_typed_record)
  /\ field loosely_typed_record sceneDescription = Some (JNumber 1 0)
  /\ field loosely_typed_record choices = Some (JArray [JNumber 2 0; JNull])
  /\ field loosely_typed_record (codes "extra") = Some (JBool true).
Proof.
  split; [|repeat split].
  intros response t data c cs Ht Hp Hs Hi Hc.
  rewrite (parseJsonResponse_spec _ _ _ Ht Hp).
  now rewrite (accepts_intro data c cs Hs Hi Hc).
Qed.

Lemma parseJsonResponse_unchecked_types_witness :
  parseJsonResponse {| text := Some loosely_typed |}
  = Normal (Some loosely_typed_record).
Proof.
  apply (proj1 parseJsonResponse_unchecked_types
           {| text := Some loosely_typed |} loosely_typed
           loosely_typed_record (JNumber 2 0) [JNull]); reflexivity.
Defined.

(** ** Normalization: claims C2 and C5 *)

Lemma starts_with_fence_app (a b : jsstring) :
  a <> [] -> starts_with fence a = false -> last a 0 <> backtick ->
  starts_with fence (a ++ b) = false.
Proof.
  intros Ha Hf Hl.
  assert (Hne : forall x, x <> backtick -> (backtick =? x) = false)
    by (intros x Hx; apply N.eqb_neq; congruence).
  destruct a as [|c [|d [|e a]]]; [congruence| | |].
  - change (starts_with fence ([c] ++ b))
      with ((backtick =? c) && starts_with two_ticks b).
    now rewrite (Hne c Hl).
  - change (starts_with fence ([c; d] ++ b))
      with ((backtick =? c) && ((backtick =? d) && starts_with [backtick] b)).
    rewrite (Hne d Hl). now rewrite andb_false_r.
  - change (starts_with fence ((c :: d :: e :: a) ++ b))
      with ((backtick =? c) && ((backtick =? d) && ((backtick =? e) && true))).
    exact Hf.
Qed.

(** After a fence-free text that does not end in a backtick the scan is
    where it would be at the start of the rest. *)
Lemma replace_fences_app (a b : jsstring) :
  fence_free a -> last a 0 <> backtick ->
  replace_fences (a ++ b) = a ++ replace_fences b.
Proof.
  unfold fence_free. induction a as [|c a IH]; intros Hf Hl; [reflexivity|].
  change (includes fence (c :: a))
    with (starts_with fence (c :: a) || includes fence a) in Hf.
  apply orb_false_iff in Hf as [H1 H2].
  change ((c :: a) ++ b) with (c :: (a ++ b)).
  rewrite replace_fences_copy
    by (apply (starts_with_fence_app (c :: a) b); [discriminate|auto|auto]).
  cbn [app]. f_equal. destruct a as [|d a]; [reflexivity|].
  apply IH; [exact H2|exact Hl].
Qed.

Lemma trim_clean_end (s : jsstring) : starts_clean (rev (trim s)).
Proof.
  unfold trim, trimEnd. rewrite rev_involutive. apply trimStart_clean.
Qed.

Lemma trim_id (s : jsstring) :
  starts_clean s -> starts_clean (rev s) -> trim s = s.
Proof.
  intros H1 H2. unfold trim, trimEnd.
  rewrite (trimStart_id s H1), (trimStart_id (rev s) H2).
  apply rev_involutive.
Qed.

(** C2, as the code has it.  Normalization removes code-fence markers in
    the interior of the text as well as at its ends.  For every text, no
    three backticks in a row, hence no marker, are left in the normalized
    text, which neither starts nor ends with white space.  A marker that
    follows a fence-free text [a] not ending in a backtick is dropped as if
    it had not been there.  Where backticks run together the scan takes
    them three by three from the left, so after four backticks the tag
    [json] stays. *)
Theorem normalize_removes_every_fence :
  (forall text,
      fence_free (normalize text)
      /\ starts_clean (normalize text)
      /\ starts_clean (rev (normalize text)))
  /\ (forall a b,
        fence_free a -> last a 0 <> backtick ->
        normalize (a ++ fence_json ++ b) = normalize (a ++ b)
        /\ (starts_with json_word b = false ->
            normalize (a ++ fence ++ b) = normalize (a ++ b)))
  /\ normalize ([backtick] ++ fence_json ++ codes "{}") = codes "`json{}".
Proof.
  split; [|split].
  - intros text. split; [apply normalize_fence_free|].
    split; [apply trim_clean|apply trim_clean_end].
  - intros a b Hf Hl. unfold normalize.
    rewrite !(replace_fences_app a) by assumption.
    rewrite replace_fences_json. split; [reflexivity|].
    intros Hj. now rewrite replace_fences_fence.
  - reflexivity.
Qed.

Lemma normalize_removes_every_fence_witness :
  normalize (codes "[1," ++ fence_json ++ codes "2]")
  = normalize (codes "[1," ++ codes "2]").
Proof.
  refine (proj1 (proj1 (proj2 normalize_removes_every_fence)
                   (codes "[1,") (codes "2]") _ _));
    [reflexivity | discriminate].
Defined.

(** C2 as stated fails: a marker in the interior of the payload is not
    left in place. *)
Lemma interior_fence_removed :
  includes fence interior_payload = true
  /\ normalize interior_payload = codes "ab"
  /\ includes fence (normalize interior_payload) = false.
Proof. repeat split. Qed.

(** C5, as the code has it.  On a text without code-fence markers the
    replace step changes nothing and normalization only trims; when such a
    text has no white space at either end it is returned as it is; and
    normalizing twice gives what normalizing once gives. *)
Theorem normalize_idempotent :
  (forall t, fence_free t -> replace_fences t = t /\ normalize t = trim t)
  /\ (forall t,
        fence_free t -> starts_clean t -> starts_clean (rev t) ->
        normalize t = t)
  /\ (forall t, normalize (normalize t) = normalize t).
Proof.
  split; [|split].
  - intros t H. split; [now apply replace_fences_fence_free|].
    now apply normalize_fence_free_in.
  - intros t H H1 H2. rewrite (normalize_fence_free_in t H).
    now apply trim_id.
  - intros t. rewrite (normalize_fence_free_in _ (normalize_fence_free t)).
    unfold normalize. apply trim_idem.
Qed.

Lemma normalize_idempotent_witness :
  replace_fences padded_text = padded_text
  /\ normalize padded_text = trim padded_text
  /\ normalize (codes "{}") = codes "{}".
Proof.
  split; [|split].
  - apply (proj1 normalize_idempotent padded_text). reflexivity.
  - apply (proj1 normalize_idempotent padded_text). reflexivity.
  - apply (proj1 (proj2 normalize_idempotent) (codes "{}")); reflexivity.
Defined.

(** C5 as stated fails: a text without markers is not always returned
    unchanged, its surrounding white space is trimmed. *)
Lemma fence_free_text_trimmed :
  fence_free padded_text
  /\ normalize padded_text = codes "a"
  /\ normalize padded_text <> padded_text.
Proof. repeat split. discriminate. Qed.

(** ** The wrappers: claims C6, C7, C8 *)

Lemma checked_absent (failure : JSError) :
  checked failure (Normal None) = Raise failure.
Proof. reflexivity. Qed.

Lemma checked_present (failure : JSError)
  (response : GenerateContentResponse) (data : SceneData) :
  parseJsonResponse response = Normal (Some data) ->
  checked failure (parseJsonResponse response) = Return data.
Proof.
  intros H. rewrite H. unfold checked. cbn [truthy_opt].
  destruct (parseJsonResponse_inv _ _ H) as (t & _ & _ & Ha).
  now rewrite (accepts_truthy _ Ha).
Qed.

(** C6.  Both scene wrappers make one call and no more.  When the
    validator returns [null] on its response they throw, the one the error
    that names the initial scene, the other the error that names the next
    scene, and return nothing; when the validator returns a record they
    return that record.  The request of the call carries the prompt. *)
Theorem scene_wrappers_escalate (ai : Service) (n : nat)
  (response : GenerateContentResponse)
  (storyHistory : list jsstring) (choice : jsstring) :
  (answer_content ai n (scene_request initial_prompt) = Normal response ->
   (parseJsonResponse response = Normal None ->
    run generateInitialScene ai n
    = (Throw (Error (codes
         "Failed to generate a valid initial scene from the API.")),
       [ContentCall (scene_request initial_prompt)]))
   /\ (forall data,
         parseJsonResponse response = Normal (Some data) ->
         run generateInitialScene ai n
         = (Normal data, [ContentCall (scene_request initial_prompt)])))
  /\ (answer_content ai n (scene_request (next_prompt storyHistory choice))
      = Normal response ->
      (parseJsonResponse response = Normal None ->
       run (generateNextScene storyHistory choice) ai n
       = (Throw (Error (codes
            "Failed to generate a valid next scene from the API.")),
          [ContentCall (scene_request (next_prompt storyHistory choice))]))
      /\ (forall data,
            parseJsonResponse response = Normal (Some data) ->
            run (generateNextScene storyHistory choice) ai n
            = (Normal data,
               [ContentCall
                  (scene_request (next_prompt storyHistory choice))])))
  /\ (forall p,
        scene_request p
        = {| model := "gemini-2.5-flash";
            contents := p;
            config := {| responseMimeType := "application/json";
                         responseSchema_ := responseSchema |} |}).
Proof.
  split; [|split].
  - intros Ha. split.
    + intros Hp. cbn [run generateInitialScene]. rewrite Ha. cbn [await].
      rewrite Hp, checked_absent. reflexivity.
    + intros data Hp. cbn [run generateInitialScene]. rewrite Ha.
      cbn [await]. rewrite (checked_present _ _ _ Hp). reflexivity.
  - intros Ha. split.
    + intros Hp. cbn [run generateNextScene]. rewrite Ha. cbn [await].
      rewrite Hp, checked_absent. reflexivity.
    + intros data Hp. cbn [run generateNextScene]. rewrite Ha.
      cbn [await]. rewrite (checked_present _ _ _ Hp). reflexivity.
  - reflexivity.
Qed.

Lemma scene_wrappers_escalate_witness :
  run generateInitialScene
    (constant_service (Normal {| text := Some scenario_B |})
                      (Normal no_images)) 0
  = (Throw (Error (codes
       "Failed to generate a valid initial scene from the API.")),
     [ContentCall (scene_request initial_prompt)])
  /\ run (generateNextScene [] (codes "Open the door"))
       (constant_service (Normal {| text := Some scenario_A |})
                         (Normal no_images)) 0
     = (Normal scenario_A_record,
        [ContentCall
           (scene_request (next_prompt [] (codes "Open the door")))]).
Proof.
  split.
  - apply (proj1 (scene_wrappers_escalate
                    (constant_service (Normal {| text := Some scenario_B |})
                                      (Normal no_images))
                    0 {| text := Some scenario_B |} [] []));
      reflexivity.
  - apply (proj1 (proj2 (scene_wrappers_escalate
                    (constant_service (Normal {| text := Some scenario_A |})
                                      (Normal no_images))
                    0 {| text := Some scenario_A |}
                    [] (codes "Open the door"))));
      reflexivity.
Defined.

(** C7.  What [generateImage] does with the response of the image call.
    Without a generated image ([generatedImages] absent or empty) it throws
    its own error; with a first image that has bytes it returns the data
    URI made of [data:image/jpeg;base64,] and those bytes.  The two reads
    of line 122 are unguarded: a first image without bytes gives the
    prefix followed by the text [undefined], neither an error nor a
    payload, and a first entry without an image gives a [TypeError]. *)
Theorem generateImage_outcome (ai : Service) (n : nat) (p : jsstring)
  (response : GenerateImagesResponse) :
  answer_images ai n (image_request p) = Normal response ->
  (generatedImages response = None \/ generatedImages response = Some [] ->
   run (generateImage p) ai n
   = (Throw (Error (codes "Failed to generate image.")),
      [ImagesCall (image_request p)]))
  /\ (forall first others img bytes,
        generatedImages response = Some (first :: others) ->
        image first = Some img -> imageBytes img = Some bytes ->
        run (generateImage p) ai n
        = (Normal (codes "data:image/jpeg;base64," ++ bytes),
           [ImagesCall (image_request p)]))
  /\ (forall first others img,
        generatedImages response = Some (first :: others) ->
        image first = Some img -> imageBytes img = None ->
        run (generateImage p) ai n
        = (Normal (codes "data:image/jpeg;base64,undefined"),
           [ImagesCall (image_request p)]))
  /\ (forall first others,
        generatedImages response = Some (first :: others) ->
        image first = None ->
        run (generateImage p) ai n
        = (Throw TypeError, [ImagesCall (image_request p)])).
Proof.
  intros Ha.
  assert (E : run (generateImage p) ai n
              = (match generatedImages response with
                 | Some (first :: _) =>
                     match image first with
                     | Some img =>
                         Normal (data_uri_prefix
                                 ++ interpolate (imageBytes img))
                     | None => Throw TypeError
                     end
                 | _ => Throw image_error
                 end, [ImagesCall (image_request p)])).
  { cbn [run generateImage]. rewrite Ha. cbn [await]. unfold has_images.
    destruct (generatedImages response) as [[|g gs]|]; try reflexivity.
    cbn [List.length Nat.ltb Nat.leb]. destruct (image g); reflexivity. }
  rewrite E. repeat split.
  - intros [H | H]; now rewrite H.
  - intros first others img bytes H Hi Hb. now rewrite H, Hi, Hb.
  - intros first others img H Hi Hb. now rewrite H, Hi, Hb.
  - intros first others H Hi. now rewrite H, Hi.
Qed.

Lemma generateImage_outcome_witness :
  run (generateImage (codes "a cave"))
    (constant_service (Throw (ApiError [])) (Normal image_without_bytes)) 0
  = (Normal (codes "data:image/jpeg;base64,undefined"),
     [ImagesCall (image_request (codes "a cave"))])
  /\ run (generateImage (codes "a cave"))
       (constant_service (Throw (ApiError [])) (Normal one_image)) 0
     = (Normal (codes "data:image/jpeg;base64,QUJD"),
        [ImagesCall (image_request (codes "a cave"))])
  /\ run (generateImage (codes "a cave"))
       (constant_service (Throw (ApiError [])) (Normal no_images)) 0
     = (Throw (Error (codes "Failed to generate image.")),
        [ImagesCall (image_request (codes "a cave"))]).
Proof.
  split; [|split].
  - apply (proj1 (proj2 (proj2 (generateImage_outcome
                    (constant_service (Throw (ApiError []))
                                      (Normal image_without_bytes))
                    0 (codes "a cave") image_without_bytes eq_refl)))
             {| image := Some {| imageBytes := None |} |} []
             {| imageBytes := None |}); reflexivity.
  - apply (proj1 (proj2 (generateImage_outcome
                    (constant_service (Throw (ApiError []))
                                      (Normal one_image))
                    0 (codes "a cave") one_image eq_refl))
             {| image := Some {| imageBytes := Some (codes "QUJD") |} |} []
             {| imageBytes := Some (codes "QUJD") |} (codes "QUJD"));
      reflexivity.
  - apply (proj1 (generateImage_outcome
                    (constant_service (Throw (ApiError []))
                                      (Normal no_images))
                    0 (codes "a cave") no_images eq_refl)).
    right. reflexivity.
Defined.







(** ** Further properties of the validator *)

Section ValidatorProperties.

Lemma accepts_elim (data : JSValue) :
  accepts data = true ->
  truthy_opt (field data sceneDescription) = true
  /\ truthy_opt (field data imagePrompt) = true
  /\ exists c cs, field data choices = Some (JArray (c :: cs)).
Proof.
  unfold accepts. intros H.
  apply andb_true_iff in H as [H Hn]. apply andb_true_iff in H as [H _].
  apply andb_true_iff in H as [H Hi]. apply andb_true_iff in H as [_ Hs].
  repeat split; try assumption.
  destruct (field data choices) as [[| | | |[|c cs]|]|]; try discriminate.
  now exists c, cs.
Qed.

(** X1.  [parseJsonResponse] returns a record exactly when the response
    has a text whose normalization parses to that record, the record's
    [sceneDescription] and [imagePrompt] are truthy and its [choices] is an
    array with at least one element. *)
Theorem parseJsonResponse_Some_iff (response : GenerateContentResponse)
  (data : SceneData) :
  parseJsonResponse response = Normal (Some data)
  <-> exists t,
      text response = Some t
      /\ JSON.parse (normalize t) = Normal data
      /\ truthy_opt (field data sceneDescription) = true
      /\ truthy_opt (field data imagePrompt) = true
      /\ exists c cs, field data choices = Some (JArray (c :: cs)).
Proof.
  split.
  - intros H. destruct (parseJsonResponse_inv _ _ H) as (t & Ht & Hp & Ha).
    exists t. split; [exact Ht|]. split; [exact Hp|].
    now apply accepts_elim.
  - intros (t & Ht & Hp & Hs & Hi & c & cs & Hc).
    rewrite (parseJsonResponse_spec _ _ _ Ht Hp).
    now rewrite (accepts_intro data c cs Hs Hi Hc).
Qed.

(** X2.  A field that is there but falsy (the empty string, zero,
    [false], [null]) is treated like a missing one, and so is a [choices]
    that is not an array: [parseJsonResponse] returns [null]. *)
Theorem parseJsonResponse_falsy_field (response : GenerateContentResponse)
  (t : jsstring) (data v : JSValue) :
  text response = Some t ->
  JSON.parse (normalize t) = Normal data ->
  (field data sceneDescription = Some v /\ truthy v = false)
  \/ (field data imagePrompt = Some v /\ truthy v = false)
  \/ (field data choices = Some v /\ forall items, v <> JArray items) ->
  parseJsonResponse response = Normal None.
Proof.
  intros Ht Hp H. rewrite (parseJsonResponse_spec _ _ _ Ht Hp).
  destruct (accepts data) eqn:Ha; [|reflexivity].
  destruct (accepts_elim _ Ha) as (Hs & Hi & c & cs & Hc).
  destruct H as [[H Hv] | [[H Hv] | [H Hv]]].
  - rewrite H in Hs. cbn in Hs. congruence.
  - rewrite H in Hi. cbn in Hi. congruence.
  - rewrite H in Hc. injection Hc as ->. now destruct (Hv (c :: cs)).
Qed.

Lemma parseJsonResponse_falsy_field_witness :
  parseJsonResponse {| text := Some empty_description |} = Normal None.
Proof.
  apply (parseJsonResponse_falsy_field
           {| text := Some empty_description |} empty_description
           (JObject [ (sceneDescription, JString []);
                      (imagePrompt, JString (codes "B"));
                      (choices, JArray [JString (codes "Go north")]) ])
           (JString []));
    [reflexivity | reflexivity | left; split; reflexivity].
Defined.

(** X3.  A text of which nothing is left after normalization (the empty
    text, white space, an empty code block) gives [null]. *)
Theorem parseJsonResponse_blank (response : GenerateContentResponse)
  (t : jsstring) :
  text response = Some t -> normalize t = [] ->
  parseJsonResponse response = Normal None.
Proof.
  intros Ht Hn. unfold parseJsonResponse, text_of.
  rewrite Ht. cbn [bind]. rewrite Hn. reflexivity.
Qed.

Lemma parseJsonResponse_blank_witness :
  parseJsonResponse {| text := Some (fence_json ++ LF ++ fence) |}
  = Normal None.
Proof.
  apply (parseJsonResponse_blank
           {| text := Some (fence_json ++ LF ++ fence) |}
           (fence_json ++ LF ++ fence)); reflexivity.
Defined.

End ValidatorProperties.

(** ** Further properties of the normalization *)

Section NormalizationProperties.

(** White space is none of the code units of the pattern. *)
Lemma ws_not_in_pattern (c : N) :
  isWhiteSpace c = true -> ~ In c fence_json.
Proof.
  intros H Hin. cbv [fence_json fence json_word codes app map
                     list_ascii_of_string] in Hin.
  cbn in Hin.
  repeat (destruct Hin as [<- | Hin]; [discriminate H|]).
  exact Hin.
Qed.

Lemma starts_with_app_other (w a q : jsstring) (c : N) :
  ~ In c w -> starts_with w (a ++ c :: q) = starts_with w a.
Proof.
  revert a. induction w as [|x w IH]; intros a Hc; [reflexivity|].
  destruct a as [|y a].
  - cbn [app starts_with].
    replace (x =? c) with false; [reflexivity|].
    symmetry. apply N.eqb_neq. intros ->. apply Hc. now left.
  - cbn [app starts_with]. rewrite IH; [reflexivity|].
    intros Hin. apply Hc. now right.
Qed.

(** The scan cannot match across a code unit that is not in the pattern:
    it treats the two sides of it separately. *)
Lemma replace_fences_split (p q : jsstring) (c : N) :
  ~ In c fence_json ->
  replace_fences (p ++ c :: q) = replace_fences p ++ c :: replace_fences q.
Proof.
  intros Hc.
  assert (Hf : ~ In c fence)
    by (intros H; apply Hc; unfold fence_json; apply in_or_app; now left).
  assert (Hj : ~ In c json_word)
    by (intros H; apply Hc; unfold fence_json; apply in_or_app; now right).
  induction p as [| r IH | r Hr IH | x r Hx IH] using replace_fences_ind.
  - cbn [app replace_fences]. apply replace_fences_copy.
    change (c :: q) with ([] ++ c :: q).
    rewrite (starts_with_app_other fence [] q c Hf). reflexivity.
  - rewrite <- app_assoc, !replace_fences_json. exact IH.
  - rewrite <- app_assoc.
    rewrite !replace_fences_fence; [exact IH|exact Hr|].
    now rewrite starts_with_app_other.
  - change ((x :: r) ++ c :: q) with (x :: (r ++ c :: q)).
    rewrite !replace_fences_copy; [now rewrite IH|exact Hx|].
    change (x :: r ++ c :: q) with ((x :: r) ++ c :: q).
    now rewrite starts_with_app_other.
Qed.

Lemma replace_fences_ws (ws q : jsstring) :
  all_ws ws -> replace_fences (ws ++ q) = ws ++ replace_fences q.
Proof.
  induction 1 as [|c ws Hc _ IH]; [reflexivity|].
  change ((c :: ws) ++ q) with ([] ++ c :: (ws ++ q)).
  rewrite replace_fences_split by now apply ws_not_in_pattern.
  cbn [replace_fences app]. now rewrite IH.
Qed.

Lemma trimStart_ws (ws x : jsstring) :
  all_ws ws -> trimStart (ws ++ x) = trimStart x.
Proof.
  induction 1 as [|c ws Hc _ IH]; [reflexivity|].
  cbn [app trimStart]. now rewrite Hc.
Qed.

Lemma trimEnd_ws (ws x : jsstring) :
  all_ws ws -> trimEnd (x ++ ws) = trimEnd x.
Proof.
  intros H. unfold trimEnd. rewrite rev_app_distr.
  rewrite trimStart_ws; [reflexivity|]. now apply Forall_rev.
Qed.

Lemma trim_ws (ws1 ws2 x : jsstring) :
  all_ws ws1 -> all_ws ws2 -> trim (ws1 ++ x ++ ws2) = trim x.
Proof.
  intros H1 H2. unfold trim. rewrite (trimStart_ws ws1) by exact H1.
  induction x as [|c r IH].
  - cbn [app]. rewrite <- (app_nil_r ws2) at 1.
    now rewrite (trimStart_ws ws2 [] H2).
  - cbn [app trimStart]. destruct (isWhiteSpace c); [exact IH|].
    change (c :: r ++ ws2) with ((c :: r) ++ ws2).
    now apply trimEnd_ws.
Qed.

Lemma parseJsonResponse_normalize (t1 t2 : jsstring) :
  normalize t1 = normalize t2 ->
  parseJsonResponse {| text := Some t1 |}
  = parseJsonResponse {| text := Some t2 |}.
Proof.
  intros H. unfold parseJsonResponse, text_of. cbn [text bind].
  now rewrite H.
Qed.

(** X4.  White space around the text, of any of the kinds [trim] knows
    (a byte-order mark and a no-break space among them, which [JSON.parse]
    itself rejects), changes neither the normalized text nor the
    validator's result. *)
Theorem whitespace_padding_ignored (ws1 ws2 t : jsstring) :
  all_ws ws1 -> all_ws ws2 ->
  normalize (ws1 ++ t ++ ws2) = normalize t
  /\ parseJsonResponse {| text := Some (ws1 ++ t ++ ws2) |}
     = parseJsonResponse {| text := Some t |}.
Proof.
  intros H1 H2.
  assert (E : normalize (ws1 ++ t ++ ws2) = normalize t).
  { unfold normalize. rewrite (replace_fences_ws ws1) by exact H1.
    destruct H2 as [|w ws2 Hw H2].
    - rewrite !app_nil_r.
      rewrite <- (app_nil_r (replace_fences t)) at 1.
      apply trim_ws; [exact H1|constructor].
    - rewrite replace_fences_split by now apply ws_not_in_pattern.
      rewrite <- (app_nil_r ws2) at 1. rewrite (replace_fences_ws ws2 [] H2).
      cbn [replace_fences]. rewrite app_nil_r.
      apply trim_ws; [exact H1|now constructor]. }
  split; [exact E|now apply parseJsonResponse_normalize].
Qed.

Lemma whitespace_padding_ignored_witness :
  parseJsonResponse
    {| text := Some ([65279] ++ scenario_A ++ [160; 10]) |}
  = parseJsonResponse {| text := Some scenario_A |}.
Proof.
  refine (proj2 (whitespace_padding_ignored [65279] [160; 10] scenario_A
                   _ _)); repeat constructor.
Defined.

(** X5.  A payload inside a code block (the opening marker with or
    without the [json] tag, white space, the payload, at least one
    white-space code unit, the closing marker) is normalized, and
    validated, exactly as the payload alone, whatever the payload is. *)
Theorem code_block_transparent (ws1 ws2 p : jsstring) (w0 w : N) :
  all_ws ws1 -> isWhiteSpace w0 = true -> isWhiteSpace w = true ->
  all_ws ws2 ->
  normalize (fence_json ++ ws1 ++ p ++ w :: ws2 ++ fence) = normalize p
  /\ normalize (fence ++ w0 :: ws1 ++ p ++ w :: ws2 ++ fence) = normalize p
  /\ parseJsonResponse
       {| text := Some (fence_json ++ ws1 ++ p ++ w :: ws2 ++ fence) |}
     = parseJsonResponse {| text := Some p |}
  /\ parseJsonResponse
       {| text := Some (fence ++ w0 :: ws1 ++ p ++ w :: ws2 ++ fence) |}
     = parseJsonResponse {| text := Some p |}.
Proof.
  intros H1 Hw0 Hw H2.
  assert (E0 : trim (replace_fences (ws1 ++ p ++ w :: ws2 ++ fence))
               = normalize p).
  { unfold normalize.
    rewrite (replace_fences_ws ws1) by exact H1.
    rewrite replace_fences_split by now apply ws_not_in_pattern.
    rewrite (replace_fences_ws ws2) by exact H2.
    change (replace_fences fence) with (@nil N). rewrite app_nil_r.
    apply (trim_ws ws1 (w :: ws2)); [exact H1|now constructor]. }
  assert (E1 : normalize (fence_json ++ ws1 ++ p ++ w :: ws2 ++ fence)
               = normalize p).
  { unfold normalize at 1. now rewrite replace_fences_json. }
  assert (E2 : normalize (fence ++ w0 :: ws1 ++ p ++ w :: ws2 ++ fence)
               = normalize p).
  { unfold normalize at 1.
    rewrite replace_fences_fence.
    - pose proof (replace_fences_ws [w0] (ws1 ++ p ++ w :: ws2 ++ fence)
                    ltac:(now repeat constructor)) as E.
      cbn [app] in E. rewrite E, <- E0.
      pose proof (trim_ws [w0] []
                    (replace_fences (ws1 ++ p ++ w :: ws2 ++ fence))
                    ltac:(now repeat constructor) ltac:(constructor)) as T.
      rewrite app_nil_r in T. exact T.
    - change (w0 :: ws1 ++ p ++ w :: ws2 ++ fence)
        with ([] ++ w0 :: (ws1 ++ p ++ w :: ws2 ++ fence)).
      rewrite starts_with_app_other; [reflexivity|].
      intros Hin. apply (ws_not_in_pattern w0 Hw0).
      unfold fence_json. apply in_or_app. now right. }
  repeat split; auto using parseJsonResponse_normalize.
Qed.

Lemma code_block_transparent_witness :
  parseJsonResponse
    {| text := Some (fence_json ++ LF ++ scenario_C ++ 10 :: [] ++ fence) |}
  = parseJsonResponse {| text := Some scenario_C |}.
Proof.
  refine (proj1 (proj2 (proj2 (code_block_transparent LF [] scenario_C
                                  10 10 _ _ _ _))));
    repeat constructor.
Defined.

Lemma subseq_refl (a : jsstring) : subseq a a.
Proof. induction a; constructor; assumption. Qed.

Lemma subseq_app_drop (ws a b : jsstring) : subseq a b -> subseq a (ws ++ b).
Proof. intros H. induction ws; cbn [app]; [exact H|now constructor]. Qed.

Lemma subseq_prefix (a ws : jsstring) : subseq a (a ++ ws).
Proof.
  induction a as [|c a IH]; cbn [app].
  - induction ws; constructor; assumption.
  - now constructor.
Qed.

Lemma subseq_trans (a b c : jsstring) :
  subseq a b -> subseq b c -> subseq a c.
Proof.
  intros Hab Hbc. revert a Hab.
  induction Hbc as [|x b c Hbc IH|x b c Hbc IH]; intros a Hab.
  - exact Hab.
  - constructor. now apply IH.
  - inversion Hab; subst.
    + apply subseq_drop. now apply IH.
    + apply subseq_keep. now apply IH.
Qed.

Lemma subseq_length (a b : jsstring) :
  subseq a b -> (len a <= len b)%nat.
Proof. induction 1; cbn [List.length]; lia. Qed.

Lemma replace_fences_subseq (s : jsstring) : subseq (replace_fences s) s.
Proof.
  induction s as [| r IH | r Hr IH | x r Hx IH] using replace_fences_ind.
  - constructor.
  - rewrite replace_fences_json. now apply subseq_app_drop.
  - rewrite replace_fences_fence by exact Hr. now apply subseq_app_drop.
  - rewrite replace_fences_copy by exact Hx. now constructor.
Qed.

Lemma trim_subseq (s : jsstring) : subseq (trim s) s.
Proof.
  unfold trim.
  destruct (trimStart_suffix s) as [ws Hs].
  destruct (trimEnd_prefix (trimStart s)) as [ws' He].
  apply (subseq_trans _ (trimStart s)).
  - rewrite He at 2. apply subseq_prefix.
  - rewrite Hs at 2. apply subseq_app_drop, subseq_refl.
Qed.

(** X6.  Normalization only deletes: the normalized text is the input
    with some code units left out, the others in their order; it is never
    longer than the input. *)
Theorem normalize_only_deletes (t : jsstring) :
  subseq (normalize t) t /\ (len (normalize t) <= len t)%nat.
Proof.
  assert (H : subseq (normalize t) t).
  { unfold normalize. apply (subseq_trans _ (replace_fences t)).
    - apply trim_subseq.
    - apply replace_fences_subseq. }
  split; [exact H|now apply subseq_length].
Qed.

Lemma trimStart_snoc (a : jsstring) (c : N) :
  isWhiteSpace c = false -> trimStart (a ++ [c]) = trimStart a ++ [c].
Proof.
  intros Hc. induction a as [|x a IH]; cbn [app trimStart].
  - now rewrite Hc.
  - now destruct (isWhiteSpace x).
Qed.

Lemma trim_head (c : N) (z : jsstring) :
  isWhiteSpace c = false -> exists y, trim (c :: z) = c :: y.
Proof.
  intros Hc. unfold trim. cbn [trimStart]. rewrite Hc.
  unfold trimEnd. cbn [rev]. rewrite (trimStart_snoc _ _ Hc).
  rewrite rev_app_distr. cbn [rev app]. eauto.
Qed.

(** X10.  The pattern is case-sensitive: of an opening marker tagged
    [JSON] in capitals only the backticks are removed, the tag stays in
    front of the payload, and the validator returns [null] whatever the
    payload is. *)
Theorem capital_tag_rejected (p : jsstring) :
  (exists rest, normalize (fence ++ codes "JSON" ++ p) = codes "J" ++ rest)
  /\ parseJsonResponse {| text := Some (fence ++ codes "JSON" ++ p) |}
     = Normal None.
Proof.
  assert (E : exists rest,
             normalize (fence ++ codes "JSON" ++ p) = codes "J" ++ rest).
  { unfold normalize. rewrite replace_fences_fence by reflexivity.
    change (codes "JSON" ++ p) with (74 :: (codes "SON" ++ p)).
    rewrite replace_fences_copy by reflexivity.
    apply trim_head. reflexivity. }
  split; [exact E|]. destruct E as [rest E].
  unfold parseJsonResponse, text_of. cbn [text bind]. rewrite E.
  reflexivity.
Qed.

End NormalizationProperties.

(** ** Further properties of the wrappers *)

Section WrapperProperties.

(** The shape both scene wrappers have. *)
Lemma scene_call_outcomes (request : GenerateContentParameters)
  (failure : JSError) (ai : Service) (n : nat) :
  exists out,
    run (GenerateContent request
           (await (fun response =>
              checked failure (parseJsonResponse response)))) ai n
    = (out, [ContentCall request])
    /\ (forall e, answer_content ai n request = Throw e -> out = Throw e)
    /\ match out with
       | Normal data =>
           valid_scene data
           /\ exists response,
               answer_content ai n request = Normal response
               /\ parseJsonResponse response = Normal (Some data)
       | Throw e =>
           answer_content ai n request = Throw e
           \/ (e = failure
               /\ exists response,
                   answer_content ai n request = Normal response
                   /\ parseJsonResponse response = Normal None)
       end.
Proof.
  cbn [run]. destruct (answer_content ai n request) as [response|e0] eqn:Ha;
    cbn [await].
  - destruct (parseJsonResponse_total response) as [[data|] Hr].
    + rewrite (checked_present _ _ _ Hr). cbn [run].
      exists (Normal data). split; [reflexivity|]. split; [discriminate|].
      split; [|now exists response].
      destruct (parseJsonResponse_inv _ _ Hr) as (t & _ & _ & Hacc).
      now apply accepts_elim.
    + rewrite Hr, checked_absent. cbn [run].
      exists (Throw failure). split; [reflexivity|]. split; [discriminate|].
      right. split; [reflexivity|now exists response].
  - cbn [run]. exists (Throw e0). split; [reflexivity|].
    split; [now intros e [= ->]|now left].
Qed.

(** X7.  Every run of [generateInitialScene] makes exactly one call, to
    the text model, with the fixed prompt (641 code units, from its first
    line on) as contents.  A rejected call is passed on as it is.  Otherwise
    the run either throws the initial-scene error, the validator having
    returned [null], or returns the validator's record, which has a truthy
    [sceneDescription], a truthy [imagePrompt] and a non-empty [choices]
    array; no other error leaves the function. *)
Theorem generateInitialScene_outcomes (ai : Service) (n : nat) :
  exists out,
    run generateInitialScene ai n
    = (out, [ContentCall (scene_request initial_prompt)])
    /\ (forall e,
          answer_content ai n (scene_request initial_prompt) = Throw e ->
          out = Throw e)
    /\ match out with
       | Normal data =>
           valid_scene data
           /\ exists response,
               answer_content ai n (scene_request initial_prompt)
               = Normal response
               /\ parseJsonResponse response = Normal (Some data)
       | Throw e =>
           answer_content ai n (scene_request initial_prompt) = Throw e
           \/ (e = Error (codes
                 "Failed to generate a valid initial scene from the API.")
               /\ exists response,
                   answer_content ai n (scene_request initial_prompt)
                   = Normal response
                   /\ parseJsonResponse response = Normal None)
       end
    /\ scene_request initial_prompt
       = {| model := "gemini-2.5-flash";
            contents := initial_prompt;
            config := {| responseMimeType := "application/json";
                         responseSchema_ := responseSchema |} |}
    /\ List.length initial_prompt = 641%nat
    /\ starts_with
         ([10] ++ codes "        You are a master storyteller creating a dynamic text adventure game."
          ++ [10] ++ codes "        Generate the very first scene of a fantasy adventure.")
         initial_prompt = true.
Proof.
  destruct (scene_call_outcomes (scene_request initial_prompt)
              initial_scene_error ai n) as (out & H1 & H2 & H3).
  exists out. repeat split; assumption || reflexivity.
Qed.

Lemma generateInitialScene_outcomes_witness :
  fst (run generateInitialScene
         (constant_service (Throw (ApiError (codes "503")))
                           (Normal no_images)) 0)
  = Throw (ApiError (codes "503")).
Proof.
  destruct (generateInitialScene_outcomes
              (constant_service (Throw (ApiError (codes "503")))
                                (Normal no_images)) 0)
    as (out & Hrun & Hrej & _).
  rewrite Hrun. cbn [fst]. apply Hrej. reflexivity.
Defined.

(** X8.  The same for [generateNextScene], whatever the history and the
    choice: one call to the text model, its contents the prompt built from
    them; a rejected call
    passed on; otherwise the next-scene error on [null] or the validator's
    record, valid as above. *)
Theorem generateNextScene_outcomes (storyHistory : list jsstring)
  (choice : jsstring) (ai : Service) (n : nat) :
  exists out,
    run (generateNextScene storyHistory choice) ai n
    = (out, [ContentCall (scene_request (next_prompt storyHistory choice))])
    /\ (forall e,
          answer_content ai n
            (scene_request (next_prompt storyHistory choice)) = Throw e ->
          out = Throw e)
    /\ match out with
       | Normal data =>
           valid_scene data
           /\ exists response,
               answer_content ai n
                 (scene_request (next_prompt storyHistory choice))
               = Normal response
               /\ parseJsonResponse response = Normal (Some data)
       | Throw e =>
           answer_content ai n
             (scene_request (next_prompt storyHistory choice)) = Throw e
           \/ (e = Error (codes
                 "Failed to generate a valid next scene from the API.")
               /\ exists response,
                   answer_content ai n
                     (scene_request (next_prompt storyHistory choice))
                   = Normal response
                   /\ parseJsonResponse response = Normal None)
       end
    /\ scene_request (next_prompt storyHistory choice)
       = {| model := "gemini-2.5-flash";
            contents :=
              next_prompt_head ++ historyText storyHistory
              ++ next_prompt_mid ++ choice ++ next_prompt_tail;
            config := {| responseMimeType := "application/json";
                         responseSchema_ := responseSchema |} |}.
Proof.
  destruct (scene_call_outcomes
              (scene_request (next_prompt storyHistory choice))
              next_scene_error ai n) as (out & H1 & H2 & H3).
  exists out. repeat split; assumption || reflexivity.
Qed.

Lemma generateNextScene_outcomes_witness :
  fst (run (generateNextScene [codes "You wake up."] (codes "Open the door"))
         (constant_service (Throw (ApiError (codes "503")))
                           (Normal no_images)) 0)
  = Throw (ApiError (codes "503")).
Proof.
  destruct (generateNextScene_outcomes
              [codes "You wake up."] (codes "Open the door")
              (constant_service (Throw (ApiError (codes "503")))
                                (Normal no_images)) 0)
    as (out & Hrun & Hrej & _).
  rewrite Hrun. cbn [fst]. apply Hrej. reflexivity.
Defined.

(** X9.  Every run of [generateImage] makes exactly one call, asking
    the image model for one JPEG image in 16:9 with the fixed preamble
    followed by the caller's prompt.  A rejected call is passed on as it
    is.  Otherwise only the first entry of the response counts: the run
    throws the image error when there is none, a [TypeError] when the
    entry has no image, and else returns the data URI prefix followed by
    the image's bytes, or by the text [undefined] when it has none. *)
Theorem generateImage_outcomes (p : jsstring) (ai : Service) (n : nat) :
  exists out,
    run (generateImage p) ai n
    = (out,
       [ImagesCall
          {| images_model := "imagen-3.0-generate-002";
             prompt :=
               codes
                 "masterpiece, high quality, fantasy art, cinematic lighting. "
               ++ p;
             images_config := {| numberOfImages := 1;
                                 outputMimeType := "image/jpeg";
                                 aspectRatio := "16:9" |} |}])
    /\ (forall e,
          answer_images ai n (image_request p) = Throw e -> out = Throw e)
    /\ (forall response,
          answer_images ai n (image_request p) = Normal response ->
          out
          = match generatedImages response with
            | None | Some [] =>
                Throw (Error (codes "Failed to generate image."))
            | Some (first :: _) =>
                match image first with
                | None => Throw TypeError
                | Some img =>
                    Normal (codes "data:image/jpeg;base64,"
                            ++ match imageBytes img with
                               | Some bytes => bytes
                               | None => codes "undefined"
                               end)
                end
            end).
Proof.
  cbn [run generateImage].
  destruct (answer_images ai n (image_request p)) as [response|e0] eqn:Ha;
    cbn [await].
  - unfold has_images.
    destruct (generatedImages response) as [[|first others]|] eqn:Hg;
      cbn [List.length Nat.ltb Nat.leb run].
    + exists (Throw image_error). repeat split; try discriminate.
      intros r [= <-]. now rewrite Hg.
    + destruct (image first) as [img|] eqn:Hi; cbn [run].
      * exists (Normal (data_uri_prefix ++ interpolate (imageBytes img))).
        repeat split; try discriminate.
        intros r [= <-]. now rewrite Hg, Hi.
      * exists (Throw TypeError). repeat split; try discriminate.
        intros r [= <-]. now rewrite Hg, Hi.
    + exists (Throw image_error). repeat split; try discriminate.
      intros r [= <-]. now rewrite Hg.
  - cbn [run]. exists (Throw e0). repeat split.
    + now intros e [= ->].
    + discriminate.
Qed.

Lemma generateImage_outcomes_witness :
  fst (run (generateImage (codes "a cave"))
         (constant_service (Normal {| text := None |})
                           (Throw (ApiError (codes "quota")))) 0)
  = Throw (ApiError (codes "quota"))
  /\ fst (run (generateImage (codes "a cave"))
            (constant_service (Normal {| text := None |})
                              (Normal entry_without_image)) 0)
     = Throw TypeError.
Proof.
  split.
  - destruct (generateImage_outcomes (codes "a cave")
                (constant_service (Normal {| text := None |})
                                  (Throw (ApiError (codes "quota")))) 0)
      as (out & Hrun & Hrej & _).
    rewrite Hrun. cbn [fst]. apply Hrej. reflexivity.
  - destruct (generateImage_outcomes (codes "a cave")
                (constant_service (Normal {| text := None |})
                                  (Normal entry_without_image)) 0)
      as (out & Hrun & _ & Hres).
    rewrite Hrun. cbn [fst]. apply (Hres entry_without_image). reflexivity.
Defined.

End WrapperProperties.
